(** * Drug-ingredient collector and resolver: a shallow embedding

    The repository has two scripts.  [creating_local_data.py] (the
    Collector) pages through the FDA labeling API, completes each label into
    a drug record (falling back to the RxTerms ingredient API), removes
    duplicates by application number, normalizes the ingredient strings and
    writes a CSV.  [app_with_chroma_and_fda_api.py] (the Resolver) loads that
    CSV, and answers interactive queries either through a retrieval chain
    (drug known locally) or through a direct FDA lookup.

    The embedding keeps the shape of the Python code.  Text is [string];
    a byte of a Rocq string stands for the code point of the same number, so
    the model covers the code points below 256.  JSON objects read with
    [.get] are [gmap]s, the set of local names and of seen application
    numbers are [gset]s.  HTTP services and the retrieval chain are oracles
    (section variables); what the code does to the outside world (requests,
    console output, sleeps) is recorded in an event log, and Python
    exceptions are the left summand of the result. *)

From Stdlib Require Import Ascii NArith ZArith.
From stdpp Require Import base decidable option list gmap sets strings pretty.

Set Warnings "-notation-for-abbreviation,-clear-no-such-hyp".

(** ** Python string primitives *)

Module Py.

(** [str.isspace] on one code point below 256: TAB..CR, FS..US, space,
    NEL and NBSP. *)
Definition isspace (c : ascii) : bool :=
  let n := N_of_ascii c in
  ((9 <=? n) && (n <=? 13) || (28 <=? n) && (n <=? 32)
   || (n =? 133) || (n =? 160))%N.

(** [str.lower] on one code point below 256: A..Z and the Latin-1
    capitals (all of 192..222 but the multiplication sign). *)
Definition lower_char (c : ascii) : ascii :=
  let n := N_of_ascii c in
  if ((65 <=? n) && (n <=? 90)
      || (192 <=? n) && (n <=? 222) && negb (n =? 215))%N
  then ascii_of_N (n + 32) else c.

(** [s.lower()] *)
Fixpoint lower (s : string) : string :=
  match s with
  | EmptyString => EmptyString
  | String c s' => String (lower_char c) (lower s')
  end.

(** [s.lstrip()] *)
Fixpoint lstrip (s : string) : string :=
  match s with
  | EmptyString => EmptyString
  | String c s' => if isspace c then lstrip s' else s
  end.

(** [s.rstrip()] *)
Fixpoint rstrip (s : string) : string :=
  match s with
  | EmptyString => EmptyString
  | String c s' =>
      match rstrip s' with
      | EmptyString => if isspace c then EmptyString else String c EmptyString
      | r => String c r
      end
  end.

(** [s.strip()] *)
Definition strip (s : string) : string := rstrip (lstrip s).

(** [s.split(sep)] for a one-character separator: always at least one
    piece, [split sep ""] is [[""]]. *)
Fixpoint split (sep : ascii) (s : string) : list string :=
  match s with
  | EmptyString => [EmptyString]
  | String c s' =>
      if decide (c = sep) then EmptyString :: split sep s'
      else match split sep s' with
           | [] => [String c EmptyString]
           | piece :: pieces => String c piece :: pieces
           end
  end.

(** [sep.join(l)] *)
Fixpoint join (sep : string) (l : list string) : string :=
  match l with
  | [] => EmptyString
  | [x] => x
  | x :: l' => x +:+ sep +:+ join sep l'
  end.

(** Truth value of a string and of a list: non-empty. *)
Definition truthy {A} (l : list A) : bool :=
  match l with [] => false | _ => true end.
Definition truthy_str (s : string) : bool :=
  match s with EmptyString => false | _ => true end.

(** [a or b] on strings. *)
Definition or_str (a b : string) : string := if truthy_str a then a else b.

(** [list(dict.fromkeys(l))]: the keys of an insertion-ordered
    dictionary, a key that is already there keeps its place. *)
Definition fromkeys_step (d : list string) (k : string) : list string :=
  if decide (k ∈ d) then d else d ++ [k].
Definition fromkeys (l : list string) : list string :=
  foldl fromkeys_step [] l.

(** Auxiliary predicates used to state facts about the primitives:
    [s] contains the character [c]; [s] does not begin with white
    space. *)
Fixpoint contains (c : ascii) (s : string) : bool :=
  match s with
  | EmptyString => false
  | String d s' => bool_decide (d = c) || contains c s'
  end.
Definition no_lead (s : string) : Prop :=
  match s with EmptyString => True | String c _ => isspace c = false end.

End Py.

(** ** Effects: exceptions and the event log *)

(** The Python exceptions that the modelled code can meet. *)
Inductive exn :=
| RequestException (msg : string)   (* raised by [requests.get] itself *)
| HTTPError (status : Z)            (* raised by [raise_for_status] *)
| JSONDecodeError                   (* raised by [resp.json()] *)
| IndexError                        (* [[][0]] *)
| AttributeError                    (* [.get] on something that is no dict *)
| EOFError                          (* [input()] at the end of stdin *)
| ChainError (msg : string).        (* raised by the retrieval chain *)

(** What the scripts do to the outside world. *)
Inductive event :=
| EvGet (url : string) (params : list (string * string))   (* requests.get *)
| EvPrint (line : string)                                  (* print *)
| EvSleep (seconds : nat)                                  (* time.sleep *)
| EvInput (prompt : string)                                (* input *)
| EvChain (question : string).                             (* chain.invoke *)

Global Instance exn_eq_dec : EqDecision exn.
Proof. solve_decision. Defined.
Global Instance event_eq_dec : EqDecision event.
Proof. solve_decision. Defined.

(** A computation yields the events it emitted and either the exception
    that ended it or its value. *)
Definition M (A : Type) : Type := list event * (exn + A).

Definition ret {A} (a : A) : M A := ([], inr a).
Definition raise {A} (e : exn) : M A := ([], inl e).
Definition emit (ev : event) : M unit := ([ev], inr tt).
Definition bind {A B} (m : M A) (f : A → M B) : M B :=
  match m with
  | (log, inl e) => (log, inl e)
  | (log, inr a) => let '(log', r) := f a in (log ++ log', r)
  end.
(** [try: m except Exception as e: h e] *)
Definition try_except {A} (m : M A) (h : exn → M A) : M A :=
  match m with
  | (log, inl e) => let '(log', r) := h e in (log ++ log', r)
  | (log, inr a) => (log, inr a)
  end.

Declare Scope py_scope.
Delimit Scope py_scope with py.
Notation "'let*' x ':=' c1 'in' c2" := (bind c1 (fun x => c2))
  (at level 10, x name, c1 at level 100, c2 at level 200) : py_scope.
Notation "'let*' ' pat ':=' c1 'in' c2" :=
  (bind c1 (fun x => match x with pat => c2 end))
  (at level 10, pat pattern, c1 at level 100, c2 at level 200) : py_scope.
Notation "'do' c1 'then' c2" := (bind c1 (fun _ => c2))
  (at level 10, c1 at level 100, c2 at level 200) : py_scope.
Local Open Scope py_scope.

(** [for x in l: f x] *)
Fixpoint for_each {A} (f : A → M unit) (l : list A) : M unit :=
  match l with
  | [] => ret tt
  | x :: l' => do f x then for_each f l'
  end.

(** ** HTTP *)

(** A [requests.Response]: the status code and what [.json()] gives. *)
Record response (B : Type) := Response {
  status_code : Z;
  json : exn + B
}.
Arguments Response {B} _ _.
Arguments status_code {B} _.
Arguments json {B} _.

(** [resp.raise_for_status()]: an [HTTPError] for 4xx and 5xx. *)
Definition raise_for_status {B} (resp : response B) : M unit :=
  if ((400 <=? status_code resp) && (status_code resp <? 600))%Z
  then raise (HTTPError (status_code resp)) else ret tt.

(** [resp.json()] *)
Definition resp_json {B} (resp : response B) : M B :=
  match json resp with inl e => raise e | inr b => ret b end.

(** [requests.get(url, params=params)] against a service [api] whose answer
    to this request is [api_answer]. *)
Definition requests_get {B} (url : string) (params : list (string * string))
    (api_answer : exn + response B) : M (response B) :=
  do emit (EvGet url params) then
  match api_answer with inl e => raise e | inr r => ret r end.

(** ** JSON data of the two services *)

(** A raw label of the labeling API: the nested [openfda] object when
    present, and the top-level list-valued keys ([dosage_form],
    [active_ingredient], [inactive_ingredient]). *)
Record label := Label {
  l_openfda : option (gmap string (list string));
  l_fields : gmap string (list string)
}.

(** The body of a labeling-API answer: an object that may have [results]. *)
Record fda_page := FdaPage { results : option (list label) }.

(** One element of the array the ingredient API answers with. *)
Inductive rx_json :=
| RxObject (o : gmap string (list string))
| RxOther.

(** A drug record, the row of the CSV. *)
Record DrugRecord := {
  Brand_Name : string;
  Generic_Name : string;
  Manufacturer : string;
  Application_Number : string;
  Dosage_Form : string;
  Active_Ingredients : string;
  Inactive_Ingredients : string
}.

Global Instance DrugRecord_eq_dec : EqDecision DrugRecord.
Proof. solve_decision. Defined.

(** ** The Collector: [creating_local_data.py] *)

Definition FDA_LABEL_API : string := "https://api.fda.gov/drug/label.json".
Definition RXTERMS_INGREDIENT_API : string :=
  "https://clinicaltables.nlm.nih.gov/api/drug_ingredients/v3/search".

(** What the fallback lookup hands back: the dictionary with the keys
    [active] and [inactive]. *)
Record fallback := Fallback {
  fb_active : list string;
  fb_inactive : list string
}.

(** The state of the collection loop. *)
Record state := State {
  collected : list DrugRecord;
  seen_apps : gset string;
  skip : nat
}.

Definition batch_size : nat := 10.

(** [d.get(key, [""])[0].strip()] *)
Definition first_stripped (d : gmap string (list string)) (key : string)
    : M string :=
  match default [""] (d !! key) with
  | [] => raise IndexError
  | x :: _ => ret (Py.strip x)
  end.

(** The first lines of [extract_complete_record] on their own: brand,
    generic name, manufacturer, application number and dosage form, in
    this order. *)
Definition identity_fields (lab : label)
    : M (string * string * string * string * string) :=
  let openfda := default ∅ (l_openfda lab) in
  let* brand := first_stripped openfda "brand_name" in
  let* generic := first_stripped openfda "generic_name" in
  let* manufacturer := first_stripped openfda "manufacturer_name" in
  let* app_no := first_stripped openfda "application_number" in
  let* dosage_form := first_stripped (l_fields lab) "dosage_form" in
  ret (brand, generic, manufacturer, app_no, dosage_form).

Section Collector.

(** The labeling API, by [limit] and [skip], and the ingredient API, by
    drug name: the exception [requests.get] raises, or the response. *)
Variable fda_api : nat → nat → exn + response fda_page.
Variable rx_api : string → exn + response (list rx_json).

(** [fetch_fda_labels] *)
Definition fetch_fda_labels (limit skip : nat) : M (list label) :=
  let params := [("limit", pretty limit); ("skip", pretty skip)] in
  let* resp := requests_get FDA_LABEL_API params (fda_api limit skip) in
  do raise_for_status resp then
  let* page := resp_json resp in
  ret (default [] (results page)).

(** [details.get]: only a JSON object has it. *)
Definition as_object (j : rx_json) : M (gmap string (list string)) :=
  match j with RxObject o => ret o | RxOther => raise AttributeError end.

(** [fetch_rxterms_ingredients] *)
Definition fetch_rxterms_ingredients (drug_name : string)
    : M (option fallback) :=
  let params :=
    [("drug", drug_name); ("ef", "active_ingredient,inactive_ingredient")] in
  let* resp := requests_get RXTERMS_INGREDIENT_API params (rx_api drug_name) in
  if decide (status_code resp ≠ 200%Z) then ret None
  else
    let* data := resp_json resp in
    (* [len(data) >= 3], that is: [data[2]] exists *)
    match data !! 2 with
    | Some item =>
        let* details := as_object item in
        ret (Some {| fb_active := default [] (details !! "active_ingredient");
                     fb_inactive := default [] (details !! "inactive_ingredient") |})
    | None => ret None
    end.

(** [extract_complete_record] *)
Definition extract_complete_record (lab : label) : M (option DrugRecord) :=
  let* '(brand, generic, manufacturer, app_no, dosage_form) :=
    identity_fields lab in
  let active := default [] (l_fields lab !! "active_ingredient") in
  let inactive := default [] (l_fields lab !! "inactive_ingredient") in
  if Py.truthy active && Py.truthy inactive then
    ret (Some {| Brand_Name := brand;
                 Generic_Name := generic;
                 Manufacturer := manufacturer;
                 Application_Number := app_no;
                 Dosage_Form := dosage_form;
                 Active_Ingredients := Py.join ", " active;
                 Inactive_Ingredients := Py.join ", " inactive |})
  else
    let* fallback := fetch_rxterms_ingredients (Py.or_str brand generic) in
    match fallback with
    | Some fb =>
        let active_f := fb_active fb in
        let inactive_f := fb_inactive fb in
        if Py.truthy active_f && Py.truthy inactive_f then
          ret (Some {| Brand_Name := Py.or_str brand "Unknown brand";
                       Generic_Name := Py.or_str generic "Unknown generic";
                       Manufacturer := Py.or_str manufacturer "Unknown";
                       Application_Number := Py.or_str app_no "Unknown";
                       Dosage_Form := Py.or_str dosage_form "Unknown";
                       Active_Ingredients := Py.join ", " active_f;
                       Inactive_Ingredients := Py.join ", " inactive_f |})
        else ret None
    | None => ret None
    end.

(** The [for lab in labels] loop of [collect_50_complete_drugs], with its
    [break] once 50 records are collected. *)
Fixpoint for_labels (labels : list label) (st : state) : M state :=
  match labels with
  | [] => ret st
  | lab :: labels' =>
      let* rec := extract_complete_record lab in
      match rec with
      | Some rec =>
          let app := Application_Number rec in
          if decide (app ∈ seen_apps st) then for_labels labels' st
          else
            let st' := {| collected := collected st ++ [rec];
                          seen_apps := {[app]} ∪ seen_apps st;
                          skip := skip st |} in
            do emit (EvPrint ("Collected " +:+ pretty (length (collected st'))
                              +:+ ": " +:+ Brand_Name rec
                              +:+ " / " +:+ Generic_Name rec)) then
            if decide (50 ≤ length (collected st')) then ret st'
            else for_labels labels' st'
      | None => for_labels labels' st
      end
  end.

(** One turn of the [while] loop: [None] is the [break] on an empty
    batch. *)
Definition while_body (st : state) : M (option state) :=
  let* labels := fetch_fda_labels batch_size (skip st) in
  if negb (Py.truthy labels) then
    do emit (EvPrint "No more labels returned from FDA.") then
    ret None
  else
    let* st' := for_labels labels st in
    do emit (EvSleep 1) then
    ret (Some {| collected := collected st';
                 seen_apps := seen_apps st';
                 skip := skip st' + batch_size |}).

(** [while len(collected) < 50: ...; return collected].  The loop has no
    bound of its own, so the model takes [fuel], the number of turns it
    may make: [None] says the fuel ran out with the loop still running. *)
Fixpoint while_loop (fuel : nat) (st : state)
    : option (M (list DrugRecord)) :=
  match fuel with
  | 0 => None
  | S fuel' =>
      if decide (length (collected st) < 50) then
        match while_body st with
        | (log, inl e) => Some (log, inl e)
        | (log, inr None) => Some (log, inr (collected st))
        | (log, inr (Some st')) =>
            match while_loop fuel' st' with
            | Some (log', r) => Some (log ++ log', r)
            | None => None
            end
        end
      else Some ([], inr (collected st))
  end.

(** [collect_50_complete_drugs] *)
Definition collect_50_complete_drugs (fuel : nat)
    : option (M (list DrugRecord)) :=
  while_loop fuel {| collected := []; seen_apps := ∅; skip := 0 |}.

End Collector.

(** The list comprehension [[i.strip() for i in s.split(",") if i.strip()]]. *)
Definition cleaned_list (s : string) : list string :=
  flat_map (fun i => if Py.truthy_str (Py.strip i) then [Py.strip i] else [])
           (Py.split "," s).

(** What [normalize_ingredients] does to one ingredient field. *)
Definition normalize_field (s : string) : string :=
  Py.join ", " (Py.fromkeys (cleaned_list s)).

(** The body of the loop of [normalize_ingredients]: the record with its two
    ingredient fields replaced. *)
Definition normalize_record (rec : DrugRecord) : DrugRecord :=
  {| Brand_Name := Brand_Name rec;
     Generic_Name := Generic_Name rec;
     Manufacturer := Manufacturer rec;
     Application_Number := Application_Number rec;
     Dosage_Form := Dosage_Form rec;
     Active_Ingredients := normalize_field (Active_Ingredients rec);
     Inactive_Ingredients := normalize_field (Inactive_Ingredients rec) |}.

(** [normalize_ingredients]: every record is updated in place, in list
    order, and the list itself is returned. *)
Definition normalize_ingredients (records : list DrugRecord)
    : list DrugRecord :=
  map normalize_record records.

(** ** The Resolver: [app_with_chroma_and_fda_api.py] *)

(** The line feed of the f-string in [fetch_drug_from_fda]. *)
Definition nl : string := String "010"%char EmptyString.

(** [FDA_LABEL_API.format(drug_name)] of the Resolver *)
Definition lookup_url (drug_name : string) : string :=
  "https://api.fda.gov/drug/label.json?search=openfda.brand_name:"
  +:+ drug_name +:+ "&limit=1".

Definition prompt : string := nl +:+ "Enter drug name (or 'exit' to quit): ".
Definition not_found : string := "Drug not found in local DB or FDA API.".

(** [local_drug_names]: the set of the lower-cased, stripped brand names of
    the CSV column. *)
Definition local_drug_names (brand_names : list string) : gset string :=
  list_to_set ((fun name => Py.strip (Py.lower name)) <$> brand_names).

Section Resolver.

(** The labeling API by URL; the retrieval chain by question, answering
    with the page contents of its source documents; and [str(e)]. *)
Variable fda_lookup : string → exn + response fda_page.
Variable chain : string → exn + list string.
Variable str_exn : exn → string.

(** [", ".join(result.get(key, [])) if key in result else "N/A"] *)
Definition ingredient_text (result : label) (key : string) : string :=
  if decide (is_Some (l_fields result !! key))
  then Py.join ", " (default [] (l_fields result !! key))
  else "N/A".

(** [fetch_drug_from_fda] *)
Definition fetch_drug_from_fda (drug_name : string) : M (option string) :=
  try_except
    (let* response := requests_get (lookup_url drug_name) [] (fda_lookup (lookup_url drug_name)) in
     do raise_for_status response then
     let* data := resp_json response in
     match results data with
     | Some (result :: _) =>
         let active := ingredient_text result "active_ingredient" in
         let inactive := ingredient_text result "inactive_ingredient" in
         ret (Some ("Active Ingredients: " +:+ active +:+ nl
                    +:+ "Inactive Ingredients: " +:+ inactive))
     | _ => ret None
     end)
    (fun e =>
       do emit (EvPrint ("FDA API error: " +:+ str_exn e)) then
       ret None).

(** [chain.invoke({"question": query, "chat_history": []})] and
    [results.get("source_documents", [])] *)
Definition chain_invoke (query : string) : M (list string) :=
  do emit (EvChain query) then
  match chain query with inl e => raise e | inr docs => ret docs end.

(** The part of the loop body after the exit test: the routing of one
    query. *)
Definition answer_query (names : gset string) (query : string) : M unit :=
  let query_lower := Py.strip (Py.lower query) in
  if decide (query_lower ∈ names) then
    let* src_docs := chain_invoke query in
    for_each (fun doc => emit (EvPrint doc)) src_docs
  else
    let* fda_result := fetch_drug_from_fda query in
    match fda_result with
    | Some text =>
        if Py.truthy_str text then emit (EvPrint text)
        else emit (EvPrint not_found)
    | None => emit (EvPrint not_found)
    end.

(** The [while True] loop over the lines that [input] reads; it ends at
    the exit word, or with [EOFError] when the input is used up. *)
Fixpoint main_loop (names : gset string) (stdin : list string) : M unit :=
  do emit (EvInput prompt) then
  match stdin with
  | [] => raise EOFError
  | line :: stdin' =>
      let query := Py.strip line in
      if decide (Py.lower query = "exit") then ret tt
      else do answer_query names query then main_loop names stdin'
  end.

End Resolver.

(** ** Definitions that follow the words of the specification *)

(** "Removes duplicate entries while preserving first-occurrence order":
    an entry stays exactly where it occurs first. *)
Fixpoint dedup_first (l : list string) : list string :=
  match l with
  | [] => []
  | x :: l' => x :: filter (fun y => y ≠ x) (dedup_first l')
  end.

(** "Splits each ingredient field on comma, trims whitespace, drops empty
    entries, removes duplicate entries while preserving first-occurrence
    order, and rejoins with [", "]". *)
Definition normalize_spec (s : string) : string :=
  Py.join ", "
    (dedup_first
       (filter (fun entry => entry ≠ EmptyString)
               (Py.strip <$> Py.split "," s))).

(** An entry of a normalized ingredient string: not empty, nothing to
    strip, no comma inside. *)
Definition clean_entry (x : string) : Prop :=
  x ≠ EmptyString ∧ Py.strip x = x ∧ Py.contains "," x = false.

(** "First element of the field's list, or empty string if absent"; the
    code also trims it. *)
Definition field_value (d : gmap string (list string)) (key : string)
    : string :=
  match d !! key with
  | Some (x :: _) => Py.strip x
  | _ => EmptyString
  end.

(** The same without the trimming, as the specification words it. *)
Definition field_first (d : gmap string (list string)) (key : string)
    : string :=
  match d !! key with
  | Some (x :: _) => x
  | _ => EmptyString
  end.

(** A field that is present holds a non-empty list. *)
Definition field_ok (d : gmap string (list string)) (key : string) : Prop :=
  d !! key ≠ Some [].

(** The five identity fields of a label are absent or non-empty lists. *)
Definition identity_ok (lab : label) : Prop :=
  let openfda := default ∅ (l_openfda lab) in
  field_ok openfda "brand_name" ∧ field_ok openfda "generic_name" ∧
  field_ok openfda "manufacturer_name" ∧
  field_ok openfda "application_number" ∧
  field_ok (l_fields lab) "dosage_form".

(** The identity fields of a label: brand, generic name, manufacturer,
    application number and dosage form. *)
Definition identity_of (lab : label)
    : string * string * string * string * string :=
  let openfda := default ∅ (l_openfda lab) in
  (field_value openfda "brand_name", field_value openfda "generic_name",
   field_value openfda "manufacturer_name",
   field_value openfda "application_number",
   field_value (l_fields lab) "dosage_form").

(** The record of the primary path and the record of the fallback path. *)
Definition primary_record (idn : string * string * string * string * string)
    (active inactive : list string) : DrugRecord :=
  let '(brand, generic, manufacturer, app_no, dosage_form) := idn in
  {| Brand_Name := brand;
     Generic_Name := generic;
     Manufacturer := manufacturer;
     Application_Number := app_no;
     Dosage_Form := dosage_form;
     Active_Ingredients := Py.join ", " active;
     Inactive_Ingredients := Py.join ", " inactive |}.
Definition fallback_record (idn : string * string * string * string * string)
    (fb : fallback) : DrugRecord :=
  let '(brand, generic, manufacturer, app_no, dosage_form) := idn in
  {| Brand_Name := Py.or_str brand "Unknown brand";
     Generic_Name := Py.or_str generic "Unknown generic";
     Manufacturer := Py.or_str manufacturer "Unknown";
     Application_Number := Py.or_str app_no "Unknown";
     Dosage_Form := Py.or_str dosage_form "Unknown";
     Active_Ingredients := Py.join ", " (fb_active fb);
     Inactive_Ingredients := Py.join ", " (fb_inactive fb) |}.

(** The name the fallback lookup is keyed by. *)
Definition fallback_key (idn : string * string * string * string * string)
    : string :=
  let '(brand, generic, _, _, _) := idn in Py.or_str brand generic.

(** The ingredient lists of a label, as [label.get(key, [])] reads them. *)
Definition label_active (lab : label) : list string :=
  default [] (l_fields lab !! "active_ingredient").
Definition label_inactive (lab : label) : list string :=
  default [] (l_fields lab !! "inactive_ingredient").

(** A request to the fallback ingredient service, and how many of them a
    log holds. *)
Definition is_fallback_call (ev : event) : bool :=
  match ev with
  | EvGet url _ => bool_decide (url = RXTERMS_INGREDIENT_API)
  | _ => false
  end.
Definition fallback_calls (log : list event) : nat :=
  length (List.filter is_fallback_call log).

(** The parameters of the fallback request for a drug name. *)
Definition rx_params (drug_name : string) : list (string * string) :=
  [("drug", drug_name); ("ef", "active_ingredient,inactive_ingredient")].

(** ** Fixtures *)

Definition openfda_of (brand generic manufacturer app_no : list string)
    : gmap string (list string) :=
  <["brand_name" := brand]>
    (<["generic_name" := generic]>
       (<["manufacturer_name" := manufacturer]>
          (<["application_number" := app_no]> ∅))).

(** A label with everything in place. *)
Definition label_full : label :=
  {| l_openfda := Some (openfda_of [" Advil "] ["Ibuprofen"] ["Pfizer"] ["NDA018989"]);
     l_fields := <["dosage_form" := ["TABLET"]]>
                   (<["active_ingredient" := ["Ibuprofen 200 mg"]]>
                      (<["inactive_ingredient" := ["Corn starch"; "Stearic acid"]]> ∅)) |}.

(** Both ingredient lists, but [brand_name] is an empty list. *)
Definition label_empty_brand : label :=
  {| l_openfda := Some (<["brand_name" := []]> ∅);
     l_fields := <["active_ingredient" := ["a"]]>
                   (<["inactive_ingredient" := ["b"]]> ∅) |}.

(** No ingredient lists; the brand is white space only. *)
Definition label_blank_brand : label :=
  {| l_openfda := Some (openfda_of ["  "] ["Ibuprofen"] ["Pfizer"] ["NDA1"]);
     l_fields := ∅ |}.

(** No ingredient lists, no [openfda] at all. *)
Definition label_bare : label := {| l_openfda := None; l_fields := ∅ |}.

(** An ingredient service that knows every drug. *)
Definition rx_complete (_ : string) : exn + response (list rx_json) :=
  inr (Response 200
         (inr [RxOther; RxOther;
               RxObject (<["active_ingredient" := ["X"; "Y"]]>
                           (<["inactive_ingredient" := ["Z"]]> ∅))])).

(** An ingredient service that knows nothing. *)
Definition rx_unknown (_ : string) : exn + response (list rx_json) :=
  inr (Response 404 (inl JSONDecodeError)).

(** ** The collection loop in the words of the specification *)

(** The application numbers of a list of records. *)
Definition apps (records : list DrugRecord) : list string :=
  Application_Number <$> records.

(** The loop invariant: [seen_apps] is the set of the application numbers
    collected, no number was collected twice, and there are at most 50
    records. *)
Definition loop_inv (st : state) : Prop :=
  seen_apps st = list_to_set (apps (collected st))
  ∧ NoDup (apps (collected st))
  ∧ length (collected st) ≤ 50.

(** The state after a record with a new application number was
    appended. *)
Definition appended (st : state) (rec : DrugRecord) : state :=
  {| collected := collected st ++ [rec];
     seen_apps := {[Application_Number rec]} ∪ seen_apps st;
     skip := skip st |}.

(** The state the next turn starts from. *)
Definition advanced (st : state) : state :=
  {| collected := collected st;
     seen_apps := seen_apps st;
     skip := skip st + batch_size |}.

Section Source.
Variable fda_api : nat → nat → exn + response fda_page.
Variable rx_api : string → exn + response (list rx_json).

(** Record completion of the label neither raises ("completable" is:
    it gives a record). *)
Definition completes (lab : label) : Prop :=
  ∃ r, (extract_complete_record rx_api lab).2 = inr r.

(** The record a label completes to, if any. *)
Definition record_of (lab : label) : option DrugRecord :=
  match (extract_complete_record rx_api lab).2 with
  | inr r => r
  | inl _ => None
  end.

(** The application numbers of the records a list of labels gives. *)
Definition apps_of (labels : list label) : gset string :=
  list_to_set (omap (fun lab => Application_Number <$> record_of lab) labels).

(** The [k]-th batch of the source: what the fetch at offset
    [k * batch_size] returns. *)
Definition batch (k : nat) : exn + list label :=
  (fetch_fda_labels fda_api batch_size (k * batch_size)).2.

(** The [k]-th batch is there, is not empty, and each of its labels can be
    completed without an exception. *)
Definition batch_ok (k : nat) : Prop :=
  ∃ lab labels,
    batch k = inr (lab :: labels) ∧ Forall completes (lab :: labels).

(** The labels of the [n] batches from the [k]-th on. *)
Fixpoint labels_from (k n : nat) : list label :=
  match n with
  | 0 => []
  | S n' =>
      match batch k with inr labels => labels | inl _ => [] end
      ++ labels_from (S k) n'
  end.
End Source.

(** What a run of a fuelled loop came to, without its log: [None] while it
    is still running. *)
Definition outcome {A} (run : option (M A)) : option (exn + A) :=
  snd <$> run.

(** ** Fixtures for the collection loop *)

(** A source that never runs dry and never has anything to collect: every
    batch is the one label [label_bare]. *)
Definition fda_endless (_ _ : nat) : exn + response fda_page :=
  inr (Response 200 (inr (FdaPage (Some [label_bare])))).

(** A complete label with the given brand and application number. *)
Definition label_of (brand app_no : string) : label :=
  {| l_openfda := Some (<["brand_name" := [brand]]>
                          (<["application_number" := [app_no]]> ∅));
     l_fields := <["active_ingredient" := ["A"]]>
                   (<["inactive_ingredient" := ["B"]]> ∅) |}.

(** A source with one batch: two labels with the same application
    number. *)
Definition fda_twins (_ skip : nat) : exn + response fda_page :=
  inr (Response 200
         (inr (FdaPage (Some (if decide (skip = 0)
                              then [label_of "First" "NDA7";
                                    label_of "Second" "NDA7"]
                              else []))))).

(** A source that numbers its labels: the label at offset [i] has the
    application number [i] in decimal. *)
Definition fda_numbered (limit skip : nat) : exn + response fda_page :=
  inr (Response 200
         (inr (FdaPage (Some ((fun i => label_of "Drug" (pretty i))
                              <$> seq skip limit))))).

(** The same source cut off after 20 labels. *)
Definition fda_short (limit skip : nat) : exn + response fda_page :=
  if decide (skip < 20) then fda_numbered limit skip
  else inr (Response 200 (inr (FdaPage None))).

(** ** The Resolver in the words of the specification *)

(** The remote lookup failed: the request raised, the status is an error
    status, the body is no JSON, or there is no result in it. *)
Definition remote_failure (answer : exn + response fda_page) : Prop :=
  match answer with
  | inl _ => True
  | inr resp =>
      (400 ≤ status_code resp < 600)%Z
      ∨ match json resp with
        | inl _ => True
        | inr data => results data = None ∨ results data = Some []
        end
  end.


(** "Active Ingredients: <active>\nInactive Ingredients: <inactive>" *)
Definition ingredients_text (active inactive : string) : string :=
  "Active Ingredients: " +:+ active +:+ nl
  +:+ "Inactive Ingredients: " +:+ inactive.


(** ** Fixtures for the Resolver *)

Definition brands_example : list string := ["Aspirin"; " Tylenol "].

Definition lookup_500 (_ : string) : exn + response fda_page :=
  inr (Response 500 (inl JSONDecodeError)).
Definition lookup_no_results (_ : string) : exn + response fda_page :=
  inr (Response 200 (inr (FdaPage (Some [])))).
Definition lookup_down (_ : string) : exn + response fda_page :=
  inl (RequestException "connection refused").


Definition chain_echo (question : string) : exn + list string :=
  inr ["Active Ingredients: " +:+ question].

Definition str_exn_name (e : exn) : string :=
  match e with
  | RequestException msg => msg
  | HTTPError _ => "HTTPError"
  | JSONDecodeError => "JSONDecodeError"
  | IndexError => "list index out of range"
  | AttributeError => "AttributeError"
  | EOFError => "EOFError"
  | ChainError msg => msg
  end.

(** ** More of the Collector: the script itself *)

(** What [csv.DictWriter] is handed: the path, the field names of the
    header and the rows. *)
Record csv_table := CsvTable {
  csv_file : string;
  fieldnames : list string;
  rows : list DrugRecord
}.

(** [records[0].keys()]: the keys of a record in the order of the
    dictionary literal. *)
Definition record_keys : list string :=
  ["Brand Name"; "Generic Name"; "Manufacturer"; "Application Number";
   "Dosage Form"; "Active Ingredients"; "Inactive Ingredients"].

(** The messages of the script; the marks in front are kept as the UTF-8
    bytes of the source file. *)
Definition msg_collecting : string :=
  "üîπ Collecting 50 complete drugs from FDA + RxTerms APIs...".
Definition msg_no_records : string :=
  "‚ùå No complete records found.".
Definition msg_normalizing : string :=
  "üîπ Normalizing ingredients...".
Definition msg_saved (n : nat) (path : string) : string :=
  "‚úÖ Saved " +:+ pretty n
  +:+ " complete and normalized drug records to '" +:+ path +:+ "'".

Section CollectorMain.
Variable fda_api : nat → nat → exn + response fda_page.
Variable rx_api : string → exn + response (list rx_json).

(** The [__main__] block of [creating_local_data.py]: the table written to
    the CSV file is the value, [None] when no file is written.  The outer
    [option] is the fuel of the collection loop. *)
Definition collector_main (fuel : nat) : option (M (option csv_table)) :=
  match collect_50_complete_drugs fda_api rx_api fuel with
  | None => None
  | Some collection =>
      Some (do emit (EvPrint msg_collecting) then
            let* records := collection in
            if negb (Py.truthy records) then
              do emit (EvPrint msg_no_records) then
              ret None
            else
              do emit (EvPrint msg_normalizing) then
              let records := normalize_ingredients records in
              let csv_file := "drug_ingredient.csv" in
              let keys := record_keys in
              do emit (EvPrint (msg_saved (length records) csv_file)) then
              ret (Some {| csv_file := csv_file;
                           fieldnames := keys;
                           rows := records |}))
  end.
End CollectorMain.

(** The records of a list of labels, in their order, and the collection in
    the words of the specification: a record is kept when its application
    number was not met before. *)
Definition add_record (acc : list DrugRecord) (rec : DrugRecord)
    : list DrugRecord :=
  if decide (Application_Number rec ∈ apps acc) then acc else acc ++ [rec].
Definition dedup_by_app (records : list DrugRecord) : list DrugRecord :=
  foldl add_record [] records.
Definition records_of (rx_api : string → exn + response (list rx_json))
    (labels : list label) : list DrugRecord :=
  omap (record_of rx_api) labels.

(** How many records of a list have the application number [a]. *)
Definition count_app (a : string) (records : list DrugRecord) : nat :=
  length (filter (fun rec => Application_Number rec = a) records).

(** The line the loop prints for the record it has just appended. *)
Definition collected_line (n : nat) (rec : DrugRecord) : event :=
  EvPrint ("Collected " +:+ pretty n +:+ ": " +:+ Brand_Name rec
           +:+ " / " +:+ Generic_Name rec).

(** The requests to the labeling API in a log, and the request for the
    page at an offset. *)
Definition is_label_request (ev : event) : bool :=
  match ev with
  | EvGet url _ => bool_decide (url = FDA_LABEL_API)
  | _ => false
  end.
Definition label_requests (log : list event) : list event :=
  List.filter is_label_request log.
Definition page_request (skip : nat) : event :=
  EvGet FDA_LABEL_API [("limit", pretty batch_size); ("skip", pretty skip)].

(** ** More of the Resolver *)

(** A cell of the data frame that [pd.read_csv] gives: a string, or
    something that is no string (an empty cell is read as the float NaN, a
    cell of digits as a number), with the text that [str] gives for it. *)
Inductive cell :=
| CellStr (s : string)
| CellOther (text : string).

(** [[name.lower().strip() for name in column]]: a cell that is no string
    has no [lower]. *)
Fixpoint lowered_names (column : list cell) : M (list string) :=
  match column with
  | [] => ret []
  | CellStr name :: column' =>
      let* names := lowered_names column' in
      ret (Py.strip (Py.lower name) :: names)
  | CellOther _ :: _ => raise AttributeError
  end.

(** The assignment to [local_drug_names] in the script, over the column
    [df["Brand Name"]] as the data frame has it. *)
Definition frame_drug_names (column : list cell) : M (gset string) :=
  let* names := lowered_names column in
  ret (list_to_set names).

(** Counting in a log: the lines read at the prompt, and the lookups (a
    chain invocation or a request). *)
Definition is_input (ev : event) : bool :=
  match ev with EvInput _ => true | _ => false end.
Definition is_lookup (ev : event) : bool :=
  match ev with EvChain _ | EvGet _ _ => true | _ => false end.
Definition count_events (p : event → bool) (log : list event) : nat :=
  length (List.filter p log).

(** A line that the loop can answer and go on: it is not the exit word,
    and if it names a local drug the chain does not raise on it. *)
Definition answerable (chain : string → exn + list string)
    (names : gset string) (line : string) : Prop :=
  Py.lower (Py.strip line) ≠ "exit"
  ∧ (Py.strip (Py.lower line) ∈ names → ∃ docs, chain (Py.strip line) = inr docs).

(** A source whose first page is fine and whose second request is answered
    with the status 500. *)
Definition fda_breaks (limit skip : nat) : exn + response fda_page :=
  if decide (skip = 0) then fda_numbered limit skip
  else inr (Response 500 (inl JSONDecodeError)).

(** A retrieval chain that is out of order. *)
Definition chain_broken (_ : string) : exn + list string :=
  inl (ChainError "embedding service unavailable").

(** A record with repeated and blank ingredient entries, and its normal
    form. *)
Definition record_repeats : DrugRecord :=
  {| Brand_Name := " Advil";
     Generic_Name := "Ibuprofen";
     Manufacturer := "Pfizer";
     Application_Number := "NDA018989";
     Dosage_Form := "TABLET";
     Active_Ingredients := "A, B, A, C";
     Inactive_Ingredients := " x ,, y,x " |}.
Definition record_repeats_normalized : DrugRecord :=
  {| Brand_Name := " Advil";
     Generic_Name := "Ibuprofen";
     Manufacturer := "Pfizer";
     Application_Number := "NDA018989";
     Dosage_Form := "TABLET";
     Active_Ingredients := "A, B, C";
     Inactive_Ingredients := "x, y" |}.

(** * Facts about the string primitives *)

Module PyFacts.
Import Py.

Example split_ex : split "," "A, B,,C," = ["A"; " B"; ""; "C"; ""].
Proof. reflexivity. Qed.
Example strip_ex : strip "  Advil PM  " = "Advil PM".
Proof. reflexivity. Qed.
Example lower_ex : lower "AsPiRiN 81" = "aspirin 81".
Proof. reflexivity. Qed.
Example fromkeys_ex : fromkeys ["A"; "B"; "A"; "C"] = ["A"; "B"; "C"].
Proof. reflexivity. Qed.

Lemma isspace_lower_char c : isspace (lower_char c) = isspace c.
Proof. by destruct c as [[] [] [] [] [] [] [] []]. Qed.

Lemma lower_empty s : lower s = EmptyString ↔ s = EmptyString.
Proof. by destruct s. Qed.

Lemma lower_lstrip s : lower (lstrip s) = lstrip (lower s).
Proof.
  induction s as [|c s IH]; simpl; [done|].
  rewrite isspace_lower_char. by destruct (isspace c).
Qed.

Lemma lower_rstrip s : lower (rstrip s) = rstrip (lower s).
Proof.
  induction s as [|c s IH]; simpl; [done|].
  rewrite <- IH, isspace_lower_char.
  destruct (rstrip s) as [|d r]; simpl; [|done].
  by destruct (isspace c).
Qed.

Lemma lower_strip s : lower (strip s) = strip (lower s).
Proof. unfold strip. by rewrite lower_rstrip, lower_lstrip. Qed.

Lemma lstrip_no_lead s : no_lead (lstrip s).
Proof.
  induction s as [|c s IH]; simpl; [done|].
  destruct (isspace c) eqn:Hc; [done|]. simpl. done.
Qed.

Lemma lstrip_fix s : no_lead s → lstrip s = s.
Proof. destruct s as [|c s]; simpl; [done|]. by intros ->. Qed.

Lemma rstrip_cons c s :
  isspace c = false → rstrip (String c s) = String c (rstrip s).
Proof. intros Hc. simpl. rewrite Hc. by destruct (rstrip s). Qed.

Lemma rstrip_no_lead s : no_lead s → no_lead (rstrip s).
Proof.
  destruct s as [|c s]; [done|]. simpl no_lead at 1. intros Hc.
  by rewrite rstrip_cons.
Qed.

Lemma rstrip_cons_nonempty c s :
  rstrip s ≠ EmptyString → rstrip (String c s) = String c (rstrip s).
Proof. intros Hs. simpl. by destruct (rstrip s). Qed.

Lemma rstrip_idem s : rstrip (rstrip s) = rstrip s.
Proof.
  induction s as [|c s IH]; simpl; [done|].
  destruct (rstrip s) as [|d r] eqn:Hr.
  - destruct (isspace c) eqn:Hc; simpl; [done|]. by rewrite Hc.
  - rewrite rstrip_cons_nonempty; rewrite IH; done.
Qed.

Lemma strip_no_lead s : no_lead (strip s).
Proof. apply rstrip_no_lead, lstrip_no_lead. Qed.

Lemma strip_idem s : strip (strip s) = strip s.
Proof.
  unfold strip at 1. rewrite (lstrip_fix (strip s)) by apply strip_no_lead.
  unfold strip. apply rstrip_idem.
Qed.

Lemma strip_space_cons c s : isspace c = true → strip (String c s) = strip s.
Proof. intros Hc. unfold strip. simpl. by rewrite Hc. Qed.

(** Lower-casing and stripping a line that was stripped before is the
    same as lower-casing and stripping the line. *)
Lemma strip_lower_strip s : strip (lower (strip s)) = strip (lower s).
Proof. by rewrite <- !lower_strip, strip_idem. Qed.

(** ** Splitting and joining *)

Lemma split_not_nil sep s : split sep s ≠ [].
Proof.
  induction s as [|c s IH]; simpl; [done|].
  case_decide; [done|]. by destruct (split sep s).
Qed.

Lemma split_free sep s : contains sep s = false → split sep s = [s].
Proof.
  induction s as [|c s IH]; simpl; [done|].
  intros [Hc Hs]%orb_false_elim. apply bool_decide_eq_false in Hc.
  rewrite decide_False by done. by rewrite IH.
Qed.

Lemma split_app_sep sep x rest :
  contains sep x = false →
  split sep (x +:+ String sep rest) = x :: split sep rest.
Proof.
  induction x as [|c x IH]; simpl.
  - intros _. by rewrite decide_True.
  - intros [Hc Hx]%orb_false_elim. apply bool_decide_eq_false in Hc.
    rewrite decide_False by done. by rewrite IH.
Qed.

Lemma split_pieces_free sep s :
  Forall (fun piece => contains sep piece = false) (split sep s).
Proof.
  induction s as [|c s IH]; simpl.
  - by constructor.
  - case_decide as Hc.
    + by constructor.
    + destruct (split sep s) as [|piece pieces].
      * constructor; [|done]. simpl. by rewrite bool_decide_eq_false_2.
      * inversion IH as [|? ? Hp Hps]; subst. constructor; [|done].
        simpl. by rewrite bool_decide_eq_false_2.
Qed.

Lemma contains_lstrip c s : contains c s = false → contains c (lstrip s) = false.
Proof.
  induction s as [|d s IH]; simpl; [done|].
  intros [Hd Hs]%orb_false_elim. destruct (isspace d); [by apply IH|].
  simpl. by rewrite Hd, Hs.
Qed.

Lemma contains_rstrip c s : contains c s = false → contains c (rstrip s) = false.
Proof.
  induction s as [|d s IH]; simpl; [done|].
  intros [Hd Hs]%orb_false_elim. specialize (IH Hs).
  destruct (rstrip s) as [|e r].
  - destruct (isspace d); [done|]. simpl. by rewrite Hd.
  - simpl. simpl in IH. by rewrite Hd, IH.
Qed.

Lemma contains_strip c s : contains c s = false → contains c (strip s) = false.
Proof. intros H. by apply contains_rstrip, contains_lstrip. Qed.

(** Splitting what [", ".join] built from comma-free pieces: the first
    piece as it is, each later one behind the blank of the separator. *)
Lemma split_join x l :
  Forall (fun y => contains "," y = false) (x :: l) →
  split "," (join ", " (x :: l)) = x :: (String " " <$> l).
Proof.
  revert x. induction l as [|y l IH]; intros x Hall.
  - simpl. apply split_free. by inversion Hall.
  - inversion Hall as [|? ? Hx Hl]; subst.
    change (join ", " (x :: y :: l))
      with (x +:+ String "," (String " " (join ", " (y :: l)))).
    rewrite split_app_sep by done.
    change (split "," (String " " (join ", " (y :: l))))
      with (match split "," (join ", " (y :: l)) with
            | [] => [String " " EmptyString]
            | piece :: pieces => String " " piece :: pieces
            end).
    by rewrite IH.
Qed.

End PyFacts.

(** * Ingredient normalization *)

Section Normalize.
Import Py PyFacts.

Lemma truthy_str_spec s : truthy_str s = true ↔ s ≠ EmptyString.
Proof. by destruct s. Qed.

(** The list comprehension is: strip every piece, keep the non-empty
    ones. *)
Lemma cleaned_list_filter s :
  cleaned_list s
  = filter (fun entry => entry ≠ EmptyString) (strip <$> split "," s).
Proof.
  unfold cleaned_list. induction (split "," s) as [|i l IH]; [done|].
  simpl. rewrite IH, filter_cons.
  case_decide as Hi.
  - by apply truthy_str_spec in Hi as ->.
  - by rewrite Hi.
Qed.

Lemma cleaned_list_clean s : Forall clean_entry (cleaned_list s).
Proof.
  unfold cleaned_list.
  pose proof (split_pieces_free "," s) as Hfree.
  induction Hfree as [|i l Hi _ IH]; simpl; [constructor|].
  destruct (truthy_str (strip i)) eqn:Ht; [|done].
  constructor; [|done]. split_and!.
  - by apply truthy_str_spec.
  - apply strip_idem.
  - by apply contains_strip.
Qed.

(** ** [dict.fromkeys] keeps first occurrences *)

Lemma filter_all (P : string → Prop) `{!∀ x, Decision (P x)} (l : list string) :
  (∀ x, x ∈ l → P x) → filter P l = l.
Proof.
  induction l as [|x l IH]; intros Hall; [done|].
  rewrite filter_cons_True by (apply Hall; left).
  f_equal. apply IH. intros y Hy. apply Hall. by right.
Qed.

Lemma fromkeys_acc acc l :
  foldl fromkeys_step acc l
  = acc ++ filter (fun y => y ∉ acc) (dedup_first l).
Proof.
  revert acc. induction l as [|x l IH]; intros acc; simpl.
  - by rewrite app_nil_r.
  - rewrite IH. unfold fromkeys_step. rewrite filter_cons.
    destruct (decide (x ∈ acc)) as [Hin|Hin].
    + rewrite decide_False by (by intros H; apply H).
      f_equal. rewrite list_filter_filter. apply list_filter_iff.
      intros y. split; [|tauto]. intros Hy. split; [done|].
      intros ->. done.
    + rewrite decide_True by done. rewrite <- app_assoc. simpl.
      do 2 f_equal. rewrite list_filter_filter. apply list_filter_iff.
      intros y. rewrite elem_of_app, list_elem_of_singleton. tauto.
Qed.

Lemma fromkeys_dedup_first l : fromkeys l = dedup_first l.
Proof.
  unfold fromkeys. rewrite fromkeys_acc. simpl.
  apply filter_all. intros y _. apply not_elem_of_nil.
Qed.

Lemma elem_of_dedup_first x l : x ∈ dedup_first l ↔ x ∈ l.
Proof.
  induction l as [|y l IH]; simpl; [done|].
  rewrite !elem_of_cons, list_elem_of_filter, IH.
  destruct (decide (x = y)); tauto.
Qed.

Lemma NoDup_dedup_first l : NoDup (dedup_first l).
Proof.
  induction l as [|y l IH]; simpl; [constructor|].
  constructor; [|by apply NoDup_filter].
  rewrite list_elem_of_filter. intros [Hy _]. by apply Hy.
Qed.

Lemma dedup_first_NoDup l : NoDup l → dedup_first l = l.
Proof.
  induction 1 as [|x l Hx _ IH]; simpl; [done|].
  rewrite IH. f_equal. apply filter_all.
  intros y Hy ->. done.
Qed.

(** ** Normalizing a normalized string *)

Lemma strip_blank_entry y : clean_entry y → strip (String " " y) = y.
Proof. intros (_ & Hy & _). by rewrite strip_space_cons. Qed.

Lemma cleaned_list_join l :
  Forall clean_entry l → cleaned_list (join ", " l) = l.
Proof.
  intros Hl. destruct l as [|x l]; [done|].
  unfold cleaned_list. rewrite split_join
    by (eapply Forall_impl; [exact Hl|by intros ? (_ & _ & ?)]).
  inversion Hl as [|? ? Hx Hl']; subst. simpl.
  destruct Hx as (Hne & Hfix & _). rewrite Hfix.
  apply truthy_str_spec in Hne as ->. simpl. f_equal.
  clear Hl Hfix. induction Hl' as [|y l Hy _ IH]; simpl; [done|].
  rewrite (strip_blank_entry y Hy).
  destruct Hy as (Hne & _). apply truthy_str_spec in Hne as ->.
  simpl. by f_equal.
Qed.

Lemma normalize_field_join l :
  Forall clean_entry l → NoDup l → normalize_field (join ", " l) = join ", " l.
Proof.
  intros Hl Hnd. unfold normalize_field.
  by rewrite cleaned_list_join, fromkeys_dedup_first, dedup_first_NoDup.
Qed.

Lemma normalize_field_idem s :
  normalize_field (normalize_field s) = normalize_field s.
Proof.
  unfold normalize_field at 2 3. apply normalize_field_join.
  - rewrite fromkeys_dedup_first. apply Forall_forall. intros x Hx.
    rewrite elem_of_dedup_first in Hx.
    by eapply Forall_forall in Hx; [|apply cleaned_list_clean].
  - rewrite fromkeys_dedup_first. apply NoDup_dedup_first.
Qed.

Lemma normalize_field_spec s : normalize_field s = normalize_spec s.
Proof.
  unfold normalize_field, normalize_spec.
  by rewrite fromkeys_dedup_first, cleaned_list_filter.
Qed.

End Normalize.

(** * Record completion *)

Section MonadFacts.
Context {A B : Type}.

Lemma bind_ok (m : M A) (f : A → M B) l1 a l2 r :
  m = (l1, inr a) → f a = (l2, r) → bind m f = (l1 ++ l2, r).
Proof. intros -> Hf. simpl. by rewrite Hf. Qed.

Lemma bind_raise (m : M A) (f : A → M B) l1 e :
  m = (l1, inl e) → bind m f = (l1, inl e).
Proof. by intros ->. Qed.

Lemma bind_inv_inr (m : M A) (f : A → M B) log b :
  bind m f = (log, inr b) →
  ∃ l1 a l2, m = (l1, inr a) ∧ f a = (l2, inr b) ∧ log = l1 ++ l2.
Proof.
  destruct m as [l1 [e|a]]; simpl; [done|].
  destruct (f a) as [l2 r] eqn:Hf. intros [= <- ->]. by exists l1, a, l2.
Qed.
End MonadFacts.

Section Completion.
Variable rx_api : string → exn + response (list rx_json).

Example gmap_computes :
  openfda_of ["a"] ["b"] [] ["d"] !! "generic_name" = Some ["b"].
Proof. reflexivity. Qed.

Lemma first_stripped_ok d key :
  field_ok d key → first_stripped d key = ret (field_value d key).
Proof.
  unfold field_ok, first_stripped, field_value.
  destruct (d !! key) as [[|x l]|]; simpl; done.
Qed.

Lemma first_stripped_empty d key :
  d !! key = Some [] → first_stripped d key = raise IndexError.
Proof. unfold first_stripped. by intros ->. Qed.

Lemma identity_fields_ok lab :
  identity_ok lab → identity_fields lab = ret (identity_of lab).
Proof.
  intros (Hb & Hg & Hm & Ha & Hd). unfold identity_fields.
  by rewrite !first_stripped_ok.
Qed.

(** Extraction emits nothing. *)
Lemma identity_fields_silent lab : (identity_fields lab).1 = [].
Proof.
  unfold identity_fields, first_stripped.
  repeat (match goal with
          | |- context [default _ (?d !! ?k)] =>
              destruct (d !! k) as [[|? ?]|]; simpl
          end; try done).
Qed.

Lemma identity_fields_cases lab :
  (∃ e, identity_fields lab = raise e)
  ∨ (∃ idn, identity_fields lab = ret idn).
Proof.
  pose proof (identity_fields_silent lab) as Hlog.
  destruct (identity_fields lab) as [log [e|idn]]; simpl in Hlog; subst.
  - left. by exists e.
  - right. by exists idn.
Qed.

(** The primary path: both ingredient lists of the label are there. *)
Lemma extract_primary lab idn :
  identity_fields lab = ret idn →
  Py.truthy (label_active lab) = true →
  Py.truthy (label_inactive lab) = true →
  extract_complete_record rx_api lab
  = ret (Some (primary_record idn (label_active lab) (label_inactive lab))).
Proof.
  unfold extract_complete_record, label_active, label_inactive.
  intros -> Ha Hi. destruct idn as [[[[b g] m] a] d]. simpl.
  by rewrite Ha, Hi.
Qed.

Lemma extract_raises lab e :
  identity_fields lab = raise e →
  extract_complete_record rx_api lab = raise e.
Proof. unfold extract_complete_record. by intros ->. Qed.

Lemma extract_primary_no_fallback lab :
  Py.truthy (label_active lab) = true →
  Py.truthy (label_inactive lab) = true →
  fallback_calls (extract_complete_record rx_api lab).1 = 0.
Proof.
  intros Ha Hi. destruct (identity_fields_cases lab) as [[e He]|[idn Hidn]].
  - by rewrite (extract_raises _ _ He).
  - by rewrite (extract_primary _ _ Hidn Ha Hi).
Qed.

(** The fallback lookup, by what the service answers. *)
Lemma fetch_rxterms_cases drug_name :
  fetch_rxterms_ingredients rx_api drug_name
  = ([EvGet RXTERMS_INGREDIENT_API (rx_params drug_name)],
     match rx_api drug_name with
     | inl e => inl e
     | inr resp =>
         if decide (status_code resp = 200%Z) then
           match json resp with
           | inl e => inl e
           | inr data =>
               match data !! 2 with
               | Some (RxObject details) =>
                   inr (Some {| fb_active := default [] (details !! "active_ingredient");
                                fb_inactive := default [] (details !! "inactive_ingredient") |})
               | Some RxOther => inl AttributeError
               | None => inr None
               end
           end
         else inr None
     end).
Proof.
  unfold fetch_rxterms_ingredients, requests_get, rx_params.
  destruct (rx_api drug_name) as [e|[status body]]; simpl; [done|].
  destruct (decide (status = 200%Z)) as [->|Hne]; simpl.
  - unfold resp_json. simpl. destruct body as [e|data]; simpl; [done|].
    destruct (data !! 2) as [[details|]|]; simpl; done.
  - rewrite decide_True by done. done.
Qed.

Lemma fetch_rxterms_log drug_name :
  (fetch_rxterms_ingredients rx_api drug_name).1
  = [EvGet RXTERMS_INGREDIENT_API (rx_params drug_name)].
Proof. by rewrite fetch_rxterms_cases. Qed.

(** The fallback path: an ingredient list of the label is missing. *)
Lemma extract_fallback lab idn :
  identity_fields lab = ret idn →
  Py.truthy (label_active lab) && Py.truthy (label_inactive lab) = false →
  extract_complete_record rx_api lab
  = ([EvGet RXTERMS_INGREDIENT_API (rx_params (fallback_key idn))],
     match (fetch_rxterms_ingredients rx_api (fallback_key idn)).2 with
     | inl e => inl e
     | inr None => inr None
     | inr (Some fb) =>
         if Py.truthy (fb_active fb) && Py.truthy (fb_inactive fb)
         then inr (Some (fallback_record idn fb))
         else inr None
     end).
Proof.
  unfold extract_complete_record, label_active, label_inactive.
  intros -> Hmiss. destruct idn as [[[[b g] m] a] d]. simpl.
  rewrite Hmiss. simpl.
  pose proof (fetch_rxterms_log (Py.or_str b g)) as Hlog.
  destruct (fetch_rxterms_ingredients rx_api (Py.or_str b g))
    as [log [e|[fb|]]]; simpl in *; subst log; try done.
  destruct (Py.truthy (fb_active fb) && Py.truthy (fb_inactive fb)); done.
Qed.
End Completion.

(** * The collection loop *)

Section Loop.
Variable fda_api : nat → nat → exn + response fda_page.
Variable rx_api : string → exn + response (list rx_json).

Notation extract := (extract_complete_record rx_api).
Notation for_labels' := (for_labels rx_api).
Notation while_body' := (while_body fda_api rx_api).
Notation while_loop' := (while_loop fda_api rx_api).
Notation apps_of' := (apps_of rx_api).
Notation record_of' := (record_of rx_api).

Lemma apps_of_nil : apps_of' [] = ∅.
Proof. done. Qed.

Lemma apps_of_cons lab labels :
  apps_of' (lab :: labels)
  = match record_of' lab with
    | Some rec => {[Application_Number rec]} ∪ apps_of' labels
    | None => apps_of' labels
    end.
Proof. unfold apps_of. simpl. by destruct (record_of' lab). Qed.

Lemma apps_of_app l1 l2 : apps_of' (l1 ++ l2) = apps_of' l1 ∪ apps_of' l2.
Proof.
  induction l1 as [|lab l1 IH]; simpl.
  - rewrite apps_of_nil. set_solver.
  - rewrite !apps_of_cons, IH. destruct (record_of' lab); set_solver.
Qed.

Lemma loop_inv_size st : loop_inv st → size (seen_apps st) = length (collected st).
Proof.
  intros (-> & Hnd & _). rewrite size_list_to_set by done.
  unfold apps. by rewrite length_fmap.
Qed.

Lemma loop_inv_appended st rec :
  loop_inv st → length (collected st) < 50 →
  Application_Number rec ∉ seen_apps st →
  loop_inv (appended st rec).
Proof.
  intros (Hseen & Hnd & Hlen) Hlt Hnew. unfold loop_inv, appended, apps. simpl.
  rewrite fmap_app, length_app. simpl. split_and!.
  - rewrite list_to_set_app_L, Hseen. simpl. set_solver.
  - apply NoDup_app. split_and!; [done| |apply NoDup_singleton].
    intros x Hx ->%list_elem_of_singleton. apply Hnew. rewrite Hseen.
    by apply elem_of_list_to_set.
  - lia.
Qed.

(** What the [for] loop leaves behind when it runs through. *)
Lemma for_labels_inv labels : ∀ st log st',
  loop_inv st → length (collected st) < 50 →
  for_labels' labels st = (log, inr st') →
  loop_inv st' ∧ skip st' = skip st
  ∧ seen_apps st' ⊆ seen_apps st ∪ apps_of' labels
  ∧ (length (collected st') = 50
     ∨ length (collected st') < 50
       ∧ seen_apps st' = seen_apps st ∪ apps_of' labels).
Proof.
  induction labels as [|lab labels IH]; intros st log st' Hinv Hlt Hrun.
  - injection Hrun as <- <-. rewrite apps_of_nil.
    split_and!; [done|done|set_solver|right; split; [done|set_solver]].
  - simpl in Hrun.
    apply bind_inv_inr in Hrun as (l1 & r & l2 & Hex & Hrest & ->).
    rewrite apps_of_cons. unfold record_of. rewrite Hex. simpl.
    destruct r as [rec|].
    + destruct (decide (Application_Number rec ∈ seen_apps st)) as [Hin|Hnew].
      * destruct (IH _ _ _ Hinv Hlt Hrest) as (? & ? & ? & Hend).
        split_and!; [done|done|set_solver|].
        destruct Hend as [?|[? ?]]; [by left|right]. split; [done|set_solver].
      * pose proof (loop_inv_appended _ _ Hinv Hlt Hnew) as Hinv'.
        destruct (decide (50 ≤ length (collected st ++ [rec])))
          as [Hfull|Hless].
        -- injection Hrest as <- <-.
           split_and!; [done|done|simpl; set_solver|left].
           destruct Hinv' as (_ & _ & ?). simpl in *. lia.
        -- fold (appended st rec) in Hrest.
           destruct (for_labels' labels (appended st rec)) as [l4 r4] eqn:Hfl.
           injection Hrest as <- ->.
           destruct (IH _ _ _ Hinv' ltac:(simpl; lia) Hfl)
             as (? & ? & Hsub & Hend).
           simpl in *. split_and!; [done|done|set_solver|].
           destruct Hend as [?|[? ?]]; [by left|right]. split; [done|set_solver].
    + destruct (IH _ _ _ Hinv Hlt Hrest) as (? & ? & ? & Hend). done.
Qed.

Lemma for_labels_skip labels : ∀ st log st',
  for_labels' labels st = (log, inr st') → skip st' = skip st.
Proof.
  induction labels as [|lab labels IH]; intros st log st' Hrun.
  - by injection Hrun as <- <-.
  - simpl in Hrun.
    apply bind_inv_inr in Hrun as (l1 & r & l2 & _ & Hrest & ->).
    destruct r as [rec|]; [|by eapply IH].
    destruct (decide (Application_Number rec ∈ seen_apps st)); [by eapply IH|].
    destruct (decide (50 ≤ length (collected st ++ [rec]))).
    + by injection Hrest as <- <-.
    + fold (appended st rec) in Hrest.
      destruct (for_labels' labels (appended st rec)) as [l4 r4] eqn:Hfl.
      injection Hrest as <- ->. by apply IH in Hfl.
Qed.

(** The [for] loop runs through when every label completes. *)
Lemma for_labels_total labels : ∀ st,
  Forall (completes rx_api) labels →
  ∃ log st', for_labels' labels st = (log, inr st').
Proof.
  induction labels as [|lab labels IH]; intros st Hall.
  - by exists [], st.
  - inversion Hall as [|? ? [r Hr] Hall']; subst. simpl.
    destruct (extract lab) as [l1 res] eqn:Hex. simpl in Hr. subst res.
    simpl. destruct r as [rec|].
    + destruct (decide (Application_Number rec ∈ seen_apps st)).
      * destruct (IH st Hall') as (l2 & st' & ->). by eexists _, _.
      * simpl. case_decide.
        -- by eexists _, _.
        -- match goal with |- context [for_labels' labels ?s] =>
             destruct (IH s Hall') as (l2 & st' & ->) end.
           by eexists _, _.
    + destruct (IH st Hall') as (l2 & st' & ->). by eexists _, _.
Qed.

(** ** One turn of the [while] loop *)

Lemma while_body_empty st :
  (fetch_fda_labels fda_api batch_size (skip st)).2 = inr [] →
  ∃ log, while_body' st = (log, inr None).
Proof.
  unfold while_body.
  destruct (fetch_fda_labels fda_api batch_size (skip st)) as [lf r].
  simpl. intros ->. simpl. by eexists.
Qed.

Lemma while_body_step st lab labels l2 st1 :
  (fetch_fda_labels fda_api batch_size (skip st)).2 = inr (lab :: labels) →
  for_labels' (lab :: labels) st = (l2, inr st1) →
  ∃ log, while_body' st = (log, inr (Some (advanced st1))).
Proof.
  unfold while_body.
  destruct (fetch_fda_labels fda_api batch_size (skip st)) as [lf r].
  cbn [snd]. intros -> Hfor. cbn [bind Py.truthy negb].
  rewrite Hfor. simpl. by eexists.
Qed.

Lemma while_body_inv st log st' :
  while_body' st = (log, inr (Some st')) →
  ∃ lf labels l2 st1,
    fetch_fda_labels fda_api batch_size (skip st) = (lf, inr labels)
    ∧ labels ≠ []
    ∧ for_labels' labels st = (l2, inr st1) ∧ st' = advanced st1.
Proof.
  unfold while_body. intros Hrun.
  apply bind_inv_inr in Hrun as (lf & labels & l' & Hfetch & Hrest & ->).
  destruct labels as [|lab labels]; [done|]. cbn [Py.truthy negb] in Hrest.
  apply bind_inv_inr in Hrest as (l2 & st1 & l3 & Hfor & Hrest & ->).
  simpl in Hrest. injection Hrest as <- <-.
  by exists lf, (lab :: labels), l2, st1.
Qed.

Lemma while_body_keeps_inv st log st' :
  loop_inv st → length (collected st) < 50 →
  while_body' st = (log, inr (Some st')) →
  loop_inv st' ∧ skip st' = skip st + batch_size.
Proof.
  intros Hinv Hlt (lf & labels & l2 & st1 & _ & _ & Hfor & ->)%while_body_inv.
  destruct (for_labels_inv _ _ _ _ Hinv Hlt Hfor) as (Hinv1 & Hskip & _).
  split; [exact Hinv1|]. simpl. by rewrite Hskip.
Qed.

(** ** The [while] loop *)

Lemma while_loop_full fuel st :
  ¬ length (collected st) < 50 →
  while_loop' (S fuel) st = Some ([], inr (collected st)).
Proof. intros Hfull. simpl. by rewrite decide_False. Qed.

Lemma while_loop_turn fuel st l1 st' l2 r :
  length (collected st) < 50 →
  while_body' st = (l1, inr (Some st')) →
  while_loop' fuel st' = Some (l2, r) →
  while_loop' (S fuel) st = Some (l1 ++ l2, r).
Proof.
  intros Hlt Hbody Hloop. simpl. rewrite decide_True by done.
  by rewrite Hbody, Hloop.
Qed.

(** Every list the loop returns has pairwise distinct application numbers
    and at most 50 records. *)
Lemma while_loop_inv fuel : ∀ st log l,
  loop_inv st →
  while_loop' fuel st = Some (log, inr l) →
  NoDup (apps l) ∧ length l ≤ 50.
Proof.
  induction fuel as [|fuel IH]; intros st log l Hinv Hrun; [done|].
  simpl in Hrun. destruct (decide (length (collected st) < 50)) as [Hlt|Hfull].
  - destruct (while_body' st) as [l1 [e|[st'|]]] eqn:Hbody.
    + done.
    + destruct (while_body_keeps_inv _ _ _ Hinv Hlt Hbody) as [Hinv' _].
      destruct (while_loop' fuel st') as [[l2 r]|] eqn:Hloop; [|done].
      injection Hrun as <- ->. by eapply IH.
    + injection Hrun as <- <-. destruct Hinv as (_ & ? & ?). done.
  - injection Hrun as <- <-. destruct Hinv as (_ & ? & ?). done.
Qed.

(** More fuel does not change what a finished run returned. *)
Lemma while_loop_mono fuel : ∀ fuel' st r,
  fuel ≤ fuel' →
  while_loop' fuel st = Some r → while_loop' fuel' st = Some r.
Proof.
  induction fuel as [|fuel IH]; intros fuel' st r Hle Hrun; [done|].
  destruct fuel' as [|fuel']; [lia|]. simpl in *.
  destruct (decide (length (collected st) < 50)); [|done].
  destruct (while_body' st) as [l1 [e|[st'|]]]; [done| |done].
  destruct (while_loop' fuel st') as [[l2 r2]|] eqn:Hloop; [|done].
  by rewrite (IH fuel' st' (l2, r2)) by (done || lia).
Qed.

Lemma while_loop_deterministic fuel fuel' st r r' :
  while_loop' fuel st = Some r → while_loop' fuel' st = Some r' → r = r'.
Proof.
  intros H1 H2.
  apply (while_loop_mono _ (fuel `max` fuel')) in H1; [|lia].
  apply (while_loop_mono _ (fuel `max` fuel')) in H2; [|lia].
  congruence.
Qed.

(** ** Runs over well-behaved batches *)

Notation batch' := (batch fda_api).
Notation batch_ok' := (batch_ok fda_api rx_api).
Notation labels_from' := (labels_from fda_api).

Lemma seen_size_le st (X : gset string) :
  loop_inv st → length (collected st) ≤ size (seen_apps st ∪ X).
Proof.
  intros Hinv. rewrite <- (loop_inv_size _ Hinv).
  apply subseteq_size. set_solver.
Qed.

(** One turn over a well-behaved batch'. *)
Lemma while_body_batch_ok st k :
  skip st = k * batch_size → loop_inv st → length (collected st) < 50 →
  batch_ok' k →
  ∃ log labels st',
    batch' k = inr labels
    ∧ while_body' st = (log, inr (Some st'))
    ∧ loop_inv st' ∧ skip st' = S k * batch_size
    ∧ seen_apps st' ⊆ seen_apps st ∪ apps_of' labels
    ∧ (length (collected st') = 50
       ∨ length (collected st') < 50
         ∧ seen_apps st' = seen_apps st ∪ apps_of' labels).
Proof.
  intros Hskip Hinv Hlt (lab & labels & Hbatch & Hall).
  unfold batch in Hbatch. rewrite <- Hskip in Hbatch.
  destruct (for_labels_total (lab :: labels) st Hall) as (l2 & st1 & Hfor).
  destruct (while_body_step _ _ _ _ _ Hbatch Hfor) as [log Hbody].
  destruct (for_labels_inv _ _ _ _ Hinv Hlt Hfor) as (Hinv1 & Hsk & Hsub & Hend).
  exists log, (lab :: labels), (advanced st1). split_and!; try done.
  - unfold batch. by rewrite <- Hskip.
  - simpl. rewrite Hsk, Hskip. unfold batch_size. lia.
Qed.

(** Enough labels: the loop returns exactly 50 records. *)
Lemma while_loop_exactly_50 n : ∀ st k,
  skip st = k * batch_size → loop_inv st →
  (∀ i, i < n → batch_ok' (k + i)) →
  50 ≤ size (seen_apps st ∪ apps_of' (labels_from' k n)) →
  ∃ log l, while_loop' (S n) st = Some (log, inr l) ∧ length l = 50.
Proof.
  induction n as [|n IH]; intros st k Hskip Hinv Hok Hsize.
  - simpl labels_from' in Hsize. rewrite apps_of_nil, union_empty_r_L in Hsize.
    rewrite (loop_inv_size _ Hinv) in Hsize.
    rewrite while_loop_full by lia. eexists _, _. split; [done|].
    destruct Hinv as (_ & _ & ?). lia.
  - destruct (decide (length (collected st) < 50)) as [Hlt|Hfull].
    + destruct (while_body_batch_ok st k Hskip Hinv Hlt)
        as (l1 & labels & st' & Hb & Hbody & Hinv' & Hskip' & _ & Hend).
      { rewrite <- (Nat.add_0_r k). apply Hok. lia. }
      assert (∃ log l, while_loop' (S n) st' = Some (log, inr l) ∧ length l = 50)
        as (l2 & l & Hloop & Hlen).
      { destruct Hend as [Hfull|[Hless Hseen]].
        - rewrite while_loop_full by lia. by eexists _, _.
        - apply (IH st' (S k)); [done|done| |].
          + intros i Hi. replace (S k + i) with (k + S i) by lia.
            apply Hok. lia.
          + simpl labels_from' in Hsize. rewrite Hb in Hsize.
            rewrite apps_of_app in Hsize. rewrite Hseen.
            by rewrite <- (assoc_L (∪)). }
      exists (l1 ++ l2), l. split; [|done].
      by rewrite (while_loop_turn _ _ _ _ _ _ Hlt Hbody Hloop).
    + rewrite while_loop_full by done. eexists _, _. split; [done|].
      destruct Hinv as (_ & _ & ?). lia.
Qed.

(** The source runs dry first: the loop returns one record for each
    application number it met, fewer than 50. *)
Lemma while_loop_exhausted n : ∀ st k,
  skip st = k * batch_size → loop_inv st →
  (∀ i, i < n → batch_ok' (k + i)) →
  batch' (k + n) = inr [] →
  size (seen_apps st ∪ apps_of' (labels_from' k n)) < 50 →
  ∃ log l, while_loop' (S n) st = Some (log, inr l)
           ∧ length l = size (seen_apps st ∪ apps_of' (labels_from' k n))
           ∧ list_to_set (apps l) = seen_apps st ∪ apps_of' (labels_from' k n).
Proof.
  induction n as [|n IH]; intros st k Hskip Hinv Hok Hempty Hsize.
  - simpl labels_from' in *. rewrite apps_of_nil, union_empty_r_L in *.
    rewrite (loop_inv_size _ Hinv) in *.
    unfold batch in Hempty. rewrite Nat.add_0_r, <- Hskip in Hempty.
    destruct (while_body_empty _ Hempty) as [log Hbody].
    exists log, (collected st). split_and!; [|done|by destruct Hinv as [-> _]].
    simpl. rewrite decide_True by done. by rewrite Hbody.
  - pose proof (seen_size_le st (apps_of' (labels_from' k (S n))) Hinv) as Hle.
    assert (length (collected st) < 50) as Hlt by lia.
    destruct (while_body_batch_ok st k Hskip Hinv Hlt)
      as (l1 & labels & st' & Hb & Hbody & Hinv' & Hskip' & Hsub & Hend).
    { rewrite <- (Nat.add_0_r k). apply Hok. lia. }
    simpl labels_from' in *. rewrite Hb in *. rewrite apps_of_app in *.
    destruct Hend as [Hfull|[Hless Hseen]].
    + rewrite <- (loop_inv_size _ Hinv') in Hfull.
      assert (size (seen_apps st') ≤
              size (seen_apps st ∪ (apps_of' labels ∪ apps_of' (labels_from' (S k) n))))
        by (apply subseteq_size; set_solver).
      lia.
    + destruct (IH st' (S k)) as (l2 & l & Hloop & Hlen & Hset);
        [done|done| | | |].
      * intros i Hi. replace (S k + i) with (k + S i) by lia. apply Hok. lia.
      * by replace (S k + n) with (k + S n) by lia.
      * rewrite Hseen. by rewrite <- (assoc_L (∪)).
      * exists (l1 ++ l2), l.
        rewrite (while_loop_turn _ _ _ _ _ _ Hlt Hbody Hloop).
        rewrite Hlen, Hset, Hseen. by rewrite <- (assoc_L (∪)).
Qed.

(** An empty batch' ahead: the loop comes to an end, one way or another. *)
Lemma while_loop_terminates n : ∀ st k,
  skip st = k * batch_size →
  batch' (k + n) = inr [] →
  ∃ r, while_loop' (S n) st = Some r.
Proof.
  induction n as [|n IH]; intros st k Hskip Hempty.
  - unfold batch in Hempty. rewrite Nat.add_0_r, <- Hskip in Hempty.
    destruct (while_body_empty _ Hempty) as [log Hbody].
    simpl. rewrite Hbody. case_decide; by eexists.
  - destruct (decide (length (collected st) < 50)) as [Hlt|Hfull];
      [|rewrite while_loop_full by done; by eexists].
    destruct (while_body' st) as [l1 [e|[st'|]]] eqn:Hbody.
    + exists (l1, inl e). simpl. rewrite decide_True by done. by rewrite Hbody.
    + pose proof Hbody as (lf & labels & l2 & st1 & _ & _ & Hfor & ->)%while_body_inv.
      apply for_labels_skip in Hfor.
      destruct (IH (advanced st1) (S k)) as [[l3 r] Hloop].
      * simpl. rewrite Hfor, Hskip. unfold batch_size. lia.
      * by replace (S k + n) with (k + S n) by lia.
      * exists (l1 ++ l3, r). exact (while_loop_turn _ _ _ _ _ _ Hlt Hbody Hloop).
    + exists (l1, inr (collected st)). simpl. rewrite decide_True by done.
      by rewrite Hbody.
Qed.
End Loop.

(** * The claims about record completion *)

Section CompletionClaims.
Variable rx_api : string → exn + response (list rx_json).

(** With the identity fields extracted, a label that has both ingredient
    lists gives the record of the primary path: its own ingredient lists
    joined with [", "], and no request to the ingredient service. *)
Lemma primary_path_when_extraction_succeeds lab :
  identity_ok lab →
  label_active lab ≠ [] → label_inactive lab ≠ [] →
  extract_complete_record rx_api lab
  = ([], inr (Some (primary_record (identity_of lab)
                      (label_active lab) (label_inactive lab)))).
Proof.
  intros Hok Ha Hi. apply extract_primary.
  - by apply identity_fields_ok.
  - by destruct (label_active lab).
  - by destruct (label_inactive lab).
Qed.

(** Whatever becomes of the identity fields, such a label never makes the
    code call the ingredient service. *)
Lemma primary_path_never_calls_fallback lab :
  label_active lab ≠ [] → label_inactive lab ≠ [] →
  fallback_calls (extract_complete_record rx_api lab).1 = 0.
Proof.
  intros Ha Hi. apply extract_primary_no_fallback.
  - by destruct (label_active lab).
  - by destruct (label_inactive lab).
Qed.

(** C2, at the failing input.  The label [label_empty_brand] has both
    ingredient lists, yet record completion emits no record for it: its
    [brand_name] is an empty list, and taking the first element raises
    [IndexError] before the ingredient lists are looked at. *)
Theorem primary_path_empty_brand_raises :
  label_active label_empty_brand = ["a"]
  ∧ label_inactive label_empty_brand = ["b"]
  ∧ extract_complete_record rx_api label_empty_brand = ([], inl IndexError).
Proof. split_and!; reflexivity. Qed.

(** C3, as amended.  For a label whose identity fields are absent or
    non-empty lists and that misses an ingredient list, record completion
    makes exactly one request to the ingredient service, keyed by the
    trimmed brand name, or by the trimmed generic name when the trimmed
    brand is empty.  When the lookup hands back two non-empty lists, the
    record has these lists joined with [", "] and the trimmed identity
    fields, with the placeholders where a trimmed field is empty; when the
    lookup hands back nothing (a status other than 200, fewer than three
    elements) or an empty list, there is no record; when it raises, the
    exception goes on to the caller. *)
Theorem fallback_path_record lab :
  identity_ok lab →
  Py.truthy (label_active lab) && Py.truthy (label_inactive lab) = false →
  let idn := identity_of lab in
  let key := fallback_key idn in
  let answer := (fetch_rxterms_ingredients rx_api key).2 in
  let run := extract_complete_record rx_api lab in
  run.1 = [EvGet RXTERMS_INGREDIENT_API (rx_params key)]
  ∧ (∀ fb, answer = inr (Some fb) →
           fb_active fb ≠ [] → fb_inactive fb ≠ [] →
           run.2 = inr (Some (fallback_record idn fb)))
  ∧ (∀ fb, answer = inr (Some fb) →
           fb_active fb = [] ∨ fb_inactive fb = [] → run.2 = inr None)
  ∧ (answer = inr None → run.2 = inr None)
  ∧ (∀ e, answer = inl e → run.2 = inl e)
  ∧ (∀ resp, rx_api key = inr resp → status_code resp ≠ 200%Z →
             answer = inr None)
  ∧ (∀ resp data, rx_api key = inr resp → status_code resp = 200%Z →
                  json resp = inr data → length data < 3 →
                  answer = inr None).
Proof.
  intros Hok Hmiss idn key answer run.
  pose proof (extract_fallback rx_api lab idn (identity_fields_ok lab Hok) Hmiss)
    as Hrun.
  fold key in Hrun. fold answer in Hrun. fold run in Hrun.
  rewrite Hrun. simpl. split_and!.
  - done.
  - intros fb -> Ha Hi.
    by destruct (fb_active fb), (fb_inactive fb).
  - intros fb -> [Hempty|Hempty]; rewrite Hempty; [done|].
    by destruct (fb_active fb).
  - by intros ->.
  - by intros e ->.
  - intros resp Hresp Hstatus. unfold answer.
    rewrite fetch_rxterms_cases, Hresp. simpl.
    by rewrite decide_False.
  - intros resp data Hresp Hstatus Hjson Hlen. unfold answer.
    rewrite fetch_rxterms_cases, Hresp. simpl.
    rewrite decide_True, Hjson by done.
    by rewrite (lookup_ge_None_2 data 2) by lia.
Qed.
End CompletionClaims.

(** C3, as stated, fails.  The brand of [label_blank_brand] is the two
    blanks ["  "], which is not the empty string; the lookup is nevertheless
    keyed by the generic name, and the record has the brand
    ["Unknown brand"]: the code trims before it asks whether a field is
    empty. *)
Lemma fallback_blank_brand_counterexample :
  field_first (default ∅ (l_openfda label_blank_brand)) "brand_name" = "  "
  ∧ Py.truthy_str "  " = true
  ∧ extract_complete_record rx_complete label_blank_brand
    = ([EvGet RXTERMS_INGREDIENT_API (rx_params "Ibuprofen")],
       inr (Some {| Brand_Name := "Unknown brand";
                    Generic_Name := "Ibuprofen";
                    Manufacturer := "Pfizer";
                    Application_Number := "NDA1";
                    Dosage_Form := "Unknown";
                    Active_Ingredients := "X, Y";
                    Inactive_Ingredients := "Z" |})).
Proof. split_and!; reflexivity. Qed.

Lemma identity_ok_label_blank_brand : identity_ok label_blank_brand.
Proof. repeat split; vm_compute; intros H; discriminate H. Qed.

Lemma fallback_path_record_witness :
  (extract_complete_record rx_complete label_blank_brand).2
  = inr (Some {| Brand_Name := "Unknown brand";
                 Generic_Name := "Ibuprofen";
                 Manufacturer := "Pfizer";
                 Application_Number := "NDA1";
                 Dosage_Form := "Unknown";
                 Active_Ingredients := "X, Y";
                 Inactive_Ingredients := "Z" |}).
Proof.
  destruct (fallback_path_record rx_complete label_blank_brand
              identity_ok_label_blank_brand eq_refl)
    as (_ & Hrecord & _).
  apply (Hrecord {| fb_active := ["X"; "Y"]; fb_inactive := ["Z"] |}).
  - reflexivity.
  - intros H; discriminate H.
  - intros H; discriminate H.
Defined.

(** * The claim about field extraction *)

(** C9, as stated, fails twice.  A field that is present as an empty list
    makes the extraction raise [IndexError]; and where the extraction
    succeeds it returns the first element trimmed, which is not the first
    element when that has white space around it. *)
Lemma identity_fields_counterexample :
  identity_fields label_empty_brand = ([], inl IndexError)
  ∧ identity_fields label_full
    = ([], inr ("Advil", "Ibuprofen", "Pfizer", "NDA018989", "TABLET"))
  ∧ field_first (default ∅ (l_openfda label_full)) "brand_name" = " Advil ".
Proof. split_and!; reflexivity. Qed.

(** C9, as amended.  For a label whose five identity fields are each absent
    or a non-empty list, the extraction succeeds, emits nothing, and
    returns for each field the trimmed first element of its list when the
    field is present and the empty string when it is absent (also when
    [openfda] itself is absent). *)
Theorem identity_fields_trimmed_first lab :
  identity_ok lab →
  identity_fields lab = ([], inr (identity_of lab))
  ∧ (∀ d key x l, d !! key = Some (x :: l) → field_value d key = Py.strip x)
  ∧ (∀ d key, d !! key = None → field_value d key = EmptyString).
Proof.
  intros Hok. split_and!.
  - by apply identity_fields_ok.
  - intros d key x l Hd. unfold field_value. by rewrite Hd.
  - intros d key Hd. unfold field_value. by rewrite Hd.
Qed.

Lemma identity_ok_label_full : identity_ok label_full.
Proof. repeat split; vm_compute; intros H; discriminate H. Qed.

Lemma identity_fields_trimmed_first_witness :
  identity_fields label_full
  = ([], inr ("Advil", "Ibuprofen", "Pfizer", "NDA018989", "TABLET")).
Proof.
  destruct (identity_fields_trimmed_first label_full identity_ok_label_full)
    as [Hrun _].
  exact Hrun.
Defined.

(** * The claims about the collection loop *)

Lemma outcome_returned {A} (run : option (M A)) (r : exn + A) :
  outcome run = Some r ↔ ∃ log, run = Some (log, r).
Proof.
  unfold outcome. destruct run as [[log r']|]; simpl; split.
  - intros [= ->]. by exists log.
  - by intros [log' [= _ ->]].
  - done.
  - by intros [? ?].
Qed.

Lemma loop_inv_initial :
  loop_inv {| collected := []; seen_apps := ∅; skip := 0 |}.
Proof. split_and!; simpl; [done|constructor|lia]. Qed.

(** ** A source on which the loop never ends *)

Lemma while_body_endless st :
  collected st = [] →
  ∃ log st', while_body fda_endless rx_unknown st = (log, inr (Some st'))
             ∧ collected st' = [].
Proof.
  destruct st as [c s k]. simpl. intros ->. by eexists _, _.
Qed.

Lemma while_loop_endless fuel : ∀ st,
  collected st = [] → while_loop fda_endless rx_unknown fuel st = None.
Proof.
  induction fuel as [|fuel IH]; intros st Hnone; [done|].
  destruct (while_body_endless st Hnone) as (log & st' & Hbody & Hnone').
  simpl. rewrite Hnone. simpl. rewrite Hbody. by rewrite IH.
Qed.

(** C5, as stated, fails.  On a source that answers every request with a
    batch of one label without ingredients, which the ingredient service
    does not know either, the loop collects nothing and never meets an
    empty batch: no amount of fuel brings it to an end. *)
Lemma collection_loop_endless :
  ¬ ∃ fuel r, collect_50_complete_drugs fda_endless rx_unknown fuel = Some r.
Proof.
  intros (fuel & r & Hrun). unfold collect_50_complete_drugs in Hrun.
  by rewrite while_loop_endless in Hrun.
Qed.

(** C5, as amended.  The collection loop never returns more than 50
    records, and what a finished run returns does not depend on the fuel.
    It comes to an end whenever one of the batches it would fetch is
    empty.  When the first [n] batches are non-empty and all their labels
    complete without an exception, it returns exactly 50 records if these
    labels give at least 50 distinct application numbers; and if they give
    fewer and the next batch is empty, it returns fewer than 50: one record
    for each of these application numbers. *)
Theorem collection_loop_count
    (fda_api : nat → nat → exn + response fda_page)
    (rx_api : string → exn + response (list rx_json)) :
  let collect := collect_50_complete_drugs fda_api rx_api in
  (∀ fuel l, outcome (collect fuel) = Some (inr l) → length l ≤ 50)
  ∧ (∀ fuel fuel' r r',
       collect fuel = Some r → collect fuel' = Some r' → r = r')
  ∧ (∀ n, batch fda_api n = inr [] → ∃ r, outcome (collect (S n)) = Some r)
  ∧ (∀ n, (∀ i, i < n → batch_ok fda_api rx_api i) →
          50 ≤ size (apps_of rx_api (labels_from fda_api 0 n)) →
          ∃ l, outcome (collect (S n)) = Some (inr l) ∧ length l = 50)
  ∧ (∀ n, (∀ i, i < n → batch_ok fda_api rx_api i) →
          batch fda_api n = inr [] →
          size (apps_of rx_api (labels_from fda_api 0 n)) < 50 →
          ∃ l, outcome (collect (S n)) = Some (inr l)
               ∧ length l = size (apps_of rx_api (labels_from fda_api 0 n))
               ∧ length l < 50).
Proof.
  intros collect. unfold collect, collect_50_complete_drugs. split_and!.
  - intros fuel l [log Hrun]%outcome_returned.
    by destruct (while_loop_inv fda_api rx_api fuel _ _ _ loop_inv_initial Hrun).
  - intros fuel fuel' r r'. apply while_loop_deterministic.
  - intros n Hempty.
    destruct (while_loop_terminates fda_api rx_api n
                {| collected := []; seen_apps := ∅; skip := 0 |} 0)
      as [[log r] Hrun]; [done|done|].
    exists r. apply outcome_returned. by exists log.
  - intros n Hok Hsize.
    destruct (while_loop_exactly_50 fda_api rx_api n
                {| collected := []; seen_apps := ∅; skip := 0 |} 0)
      as (log & l & Hrun & Hlen);
      [done|apply loop_inv_initial|done|simpl; by rewrite union_empty_l_L|].
    exists l. split; [|done]. apply outcome_returned. by exists log.
  - intros n Hok Hempty Hsize.
    destruct (while_loop_exhausted fda_api rx_api n
                {| collected := []; seen_apps := ∅; skip := 0 |} 0)
      as (log & l & Hrun & Hlen & _);
      [done|apply loop_inv_initial|done|done|simpl; by rewrite union_empty_l_L|].
    simpl in Hlen. rewrite union_empty_l_L in Hlen.
    exists l. split_and!; [|done|lia]. apply outcome_returned. by exists log.
Qed.

Lemma label_of_completes rx_api brand app_no :
  completes rx_api (label_of brand app_no).
Proof. by eexists. Qed.

Lemma fda_numbered_batch_ok rx_api k : batch_ok fda_numbered rx_api k.
Proof.
  eexists _, _. split; [reflexivity|].
  repeat constructor; apply label_of_completes.
Qed.

Lemma collection_loop_count_witness :
  (∃ l, outcome (collect_50_complete_drugs fda_numbered rx_unknown 6)
        = Some (inr l) ∧ length l = 50)
  ∧ (∃ l, outcome (collect_50_complete_drugs fda_short rx_unknown 3)
          = Some (inr l) ∧ length l = 20 ∧ length l < 50).
Proof.
  split.
  - destruct (collection_loop_count fda_numbered rx_unknown)
      as (_ & _ & _ & Hfull & _).
    apply (Hfull 5).
    + intros i _. apply fda_numbered_batch_ok.
    + vm_compute. lia.
  - destruct (collection_loop_count fda_short rx_unknown)
      as (_ & _ & _ & _ & Hfewer).
    destruct (Hfewer 2) as (l & Hrun & Hlen & Hlt).
    + intros i Hi. destruct i as [|[|i]]; [| |lia].
      * eexists _, _. split; [reflexivity|].
        repeat constructor; apply label_of_completes.
      * eexists _, _. split; [reflexivity|].
        repeat constructor; apply label_of_completes.
    + reflexivity.
    + vm_compute. lia.
    + exists l. split_and!; [done| |done].
      rewrite Hlen. vm_compute. reflexivity.
Defined.

(** * The Resolver *)

Section ResolverFacts.
Variable fda_lookup : string → exn + response fda_page.
Variable chain : string → exn + list string.
Variable str_exn : exn → string.

Notation fetch_drug_from_fda' := (fetch_drug_from_fda fda_lookup str_exn).
Notation answer_query' := (answer_query fda_lookup chain str_exn).
Notation main_loop' := (main_loop fda_lookup chain str_exn).


(** The remote lookup, by what the service answers. *)
Lemma fetch_drug_cases query :
  fetch_drug_from_fda' query
  = let get := EvGet (lookup_url query) [] in
    let error e := EvPrint ("FDA API error: " +:+ str_exn e) in
    match fda_lookup (lookup_url query) with
    | inl e => ([get; error e], inr None)
    | inr resp =>
        if ((400 <=? status_code resp) && (status_code resp <? 600))%Z
        then ([get; error (HTTPError (status_code resp))], inr None)
        else match json resp with
             | inl e => ([get; error e], inr None)
             | inr data =>
                 match results data with
                 | Some (result :: _) =>
                     ([get],
                      inr (Some (ingredients_text
                                   (ingredient_text result "active_ingredient")
                                   (ingredient_text result "inactive_ingredient"))))
                 | _ => ([get], inr None)
                 end
             end
    end.
Proof.
  unfold fetch_drug_from_fda, requests_get.
  destruct (fda_lookup (lookup_url query)) as [e|[status body]]; simpl; [done|].
  unfold raise_for_status. simpl.
  destruct ((400 <=? status) && (status <? 600))%Z; simpl; [done|].
  unfold resp_json. simpl. destruct body as [e|[res]]; simpl; [done|].
  destruct res as [[|result more]|]; done.
Qed.

Lemma for_each_print docs :
  for_each (fun doc => emit (EvPrint doc)) docs = (EvPrint <$> docs, inr tt).
Proof.
  induction docs as [|doc docs IH]; simpl; [done|]. by rewrite IH.
Qed.

(** The local branch. *)
Lemma answer_query_local names query :
  Py.strip (Py.lower query) ∈ names →
  answer_query' names query
  = match chain query with
    | inl e => ([EvChain query], inl e)
    | inr docs => (EvChain query :: (EvPrint <$> docs), inr tt)
    end.
Proof.
  intros Hin. unfold answer_query. rewrite decide_True by done.
  unfold chain_invoke. destruct (chain query) as [e|docs]; simpl; [done|].
  by rewrite for_each_print.
Qed.

(** The remote branch. *)
Lemma answer_query_remote names query :
  Py.strip (Py.lower query) ∉ names →
  answer_query' names query
  = ((fetch_drug_from_fda' query).1
       ++ [EvPrint match (fetch_drug_from_fda' query).2 with
                   | inr (Some text) => text
                   | _ => not_found
                   end],
     inr tt).
Proof.
  intros Hout. unfold answer_query. rewrite decide_False by done.
  rewrite fetch_drug_cases. cbv zeta.
  destruct (fda_lookup (lookup_url query)) as [e|[status body]]; [done|].
  cbn [status_code json].
  destruct ((400 <=? status) && (status <? 600))%Z; [done|].
  destruct body as [e|[res]]; [done|].
  destruct res as [[|result more]|]; done.
Qed.
End ResolverFacts.

(** * The claims about the Resolver *)

Lemma elem_of_local_drug_names x brand_names :
  x ∈ local_drug_names brand_names
  ↔ ∃ name, name ∈ brand_names ∧ x = Py.strip (Py.lower name).
Proof.
  unfold local_drug_names. rewrite elem_of_list_to_set, list_elem_of_fmap.
  naive_solver.
Qed.

Section ResolverClaims.
Variable fda_lookup : string → exn + response fda_page.
Variable chain : string → exn + list string.
Variable str_exn : exn → string.

Notation fetch_drug_from_fda' := (fetch_drug_from_fda fda_lookup str_exn).
Notation answer_query' := (answer_query fda_lookup chain str_exn).
Notation main_loop' := (main_loop fda_lookup chain str_exn).

(** The remote lookup emits its request and at most one line, the error
    line; it never raises. *)
Lemma fetch_drug_total query :
  ∃ logged r,
    fetch_drug_from_fda' query
    = (EvGet (lookup_url query) [] :: (EvPrint <$> logged), inr r).
Proof.
  rewrite fetch_drug_cases. cbv zeta.
  destruct (fda_lookup (lookup_url query)) as [e|[status body]].
  - by eexists [_], _.
  - cbn [status_code json].
    destruct ((400 <=? status) && (status <? 600))%Z; [by eexists [_], _|].
    destruct body as [e|[res]]; [by eexists [_], _|].
    destruct res as [[|result more]|]; by eexists [], _.
Qed.

(** C1.  A line read at the prompt that is not the exit word is answered
    with its stripped text as the query, and the loop goes on.  When
    the lower-cased, stripped line is one of the local drug names, the
    retrieval chain is invoked with the query and nothing is requested
    from the labeling API; otherwise the labeling API is requested and
    the chain is not invoked. *)
Theorem query_routing brand_names line stdin :
  Py.lower (Py.strip line) ≠ "exit" →
  let names := local_drug_names brand_names in
  let query := Py.strip line in
  let turn := answer_query' names query in
  main_loop' names (line :: stdin)
  = bind (emit (EvInput prompt))
      (fun _ => bind turn (fun _ => main_loop' names stdin))
  ∧ (Py.strip (Py.lower line) ∈ names →
     ∃ docs, turn.1 = EvChain query :: (EvPrint <$> docs))
  ∧ (Py.strip (Py.lower line) ∉ names →
     ∃ lines, turn.1 = EvGet (lookup_url query) [] :: (EvPrint <$> lines)).
Proof.
  intros Hexit names query turn. split_and!.
  - simpl. by rewrite decide_False.
  - intros Hin. unfold turn, query.
    rewrite answer_query_local by (by rewrite PyFacts.strip_lower_strip).
    destruct (chain (Py.strip line)) as [e|docs]; [by exists []|by exists docs].
  - intros Hout. unfold turn, query.
    rewrite answer_query_remote by (by rewrite PyFacts.strip_lower_strip).
    destruct (fetch_drug_total (Py.strip line)) as (logged & r & ->).
    eexists (logged ++ [_]). simpl. by rewrite fmap_app.
Qed.

(** C7.  The remote lookup never raises.  When it fails (the request
    raises, the status is an error status, the body is no JSON, or the
    results are missing or empty) it returns [None], having printed at
    most the line that logs the exception; the loop then prints the
    not-found message, and nothing else. *)
Theorem remote_failure_not_found :
  (∀ query, ∃ log r, fetch_drug_from_fda' query = (log, inr r))
  ∧ (∀ names query,
       remote_failure (fda_lookup (lookup_url query)) →
       Py.strip (Py.lower query) ∉ names →
       ∃ logged,
         fetch_drug_from_fda' query
         = (EvGet (lookup_url query) [] :: logged, inr None)
         ∧ (logged = []
            ∨ ∃ e, logged = [EvPrint ("FDA API error: " +:+ str_exn e)])
         ∧ answer_query' names query
           = (EvGet (lookup_url query) [] :: logged
                ++ [EvPrint "Drug not found in local DB or FDA API."],
              inr tt)).
Proof.
  split.
  - intros query. destruct (fetch_drug_total query) as (logged & r & ->).
    by eexists _, _.
  - intros names query Hfail Hout.
    rewrite (answer_query_remote _ _ _ _ _ Hout).
    rewrite fetch_drug_cases. cbv zeta.
    destruct (fda_lookup (lookup_url query)) as [e|[status body]].
    + eexists [_]. split_and!; [done|right; by eexists|done].
    + cbn [status_code json] in *.
      destruct ((400 <=? status) && (status <? 600))%Z eqn:Hstatus.
      * eexists [_]. split_and!; [done|right; by eexists|done].
      * destruct Hfail as [Herr|Hbody].
        { apply andb_false_iff in Hstatus.
          rewrite Z.leb_gt, Z.ltb_ge in Hstatus. simpl in Herr. lia. }
        destruct body as [e|[res]].
        -- eexists [_]. split_and!; [done|right; by eexists|done].
        -- simpl in Hbody. destruct Hbody as [->| ->];
             exists []; split_and!; by (done || left).
Qed.

End ResolverClaims.

Lemma aspirin_line_not_exit : Py.lower (Py.strip "  ASPirin ") ≠ "exit".
Proof. vm_compute. intros H; discriminate H. Qed.

Lemma ibuprofen_line_not_exit : Py.lower (Py.strip "ibuprofen") ≠ "exit".
Proof. vm_compute. intros H; discriminate H. Qed.

Lemma aspirin_local :
  Py.strip (Py.lower "  ASPirin ") ∈ local_drug_names brands_example.
Proof. apply (bool_decide_unpack _). vm_compute. exact I. Qed.

Lemma ibuprofen_not_local :
  Py.strip (Py.lower "ibuprofen") ∉ local_drug_names brands_example.
Proof. apply (bool_decide_unpack _). vm_compute. exact I. Qed.

Lemma query_routing_witness :
  (∃ docs,
     (answer_query lookup_500 chain_echo str_exn_name
        (local_drug_names brands_example) (Py.strip "  ASPirin ")).1
     = EvChain "ASPirin" :: (EvPrint <$> docs))
  ∧ (∃ lines,
       (answer_query lookup_500 chain_echo str_exn_name
          (local_drug_names brands_example) (Py.strip "ibuprofen")).1
       = EvGet (lookup_url "ibuprofen") [] :: (EvPrint <$> lines)).
Proof.
  split.
  - destruct (query_routing lookup_500 chain_echo str_exn_name brands_example
                "  ASPirin " [] aspirin_line_not_exit) as (_ & Hlocal & _).
    apply Hlocal. exact aspirin_local.
  - destruct (query_routing lookup_500 chain_echo str_exn_name brands_example
                "ibuprofen" [] ibuprofen_line_not_exit) as (_ & _ & Hremote).
    apply Hremote. exact ibuprofen_not_local.
Defined.

(** The example of the specification: with the local names "aspirin" and
    "tylenol", every spelling of aspirin, in any case and with any white
    space around it, is answered by the retrieval chain, and "ibuprofen"
    by the labeling API. *)
Example routing_example :
  local_drug_names brands_example = {["aspirin"; "tylenol"]}
  ∧ (∀ line,
       Py.strip (Py.lower line) = "aspirin" →
       answer_query lookup_500 chain_echo str_exn_name
         (local_drug_names brands_example) (Py.strip line)
       = ([EvChain (Py.strip line);
           EvPrint ("Active Ingredients: " +:+ Py.strip line)], inr tt))
  ∧ answer_query lookup_500 chain_echo str_exn_name
      (local_drug_names brands_example) "ibuprofen"
    = ([EvGet (lookup_url "ibuprofen") [];
        EvPrint "FDA API error: HTTPError";
        EvPrint "Drug not found in local DB or FDA API."], inr tt).
Proof.
  split_and!.
  - vm_compute. reflexivity.
  - intros line Hline. rewrite answer_query_local; [done|].
    rewrite PyFacts.strip_lower_strip, Hline.
    apply (bool_decide_unpack _). vm_compute. exact I.
  - vm_compute. reflexivity.
Qed.

Lemma lookup_500_fails query : remote_failure (lookup_500 (lookup_url query)).
Proof. left. simpl. lia. Qed.

Lemma remote_failure_not_found_witness :
  ∃ logged,
    fetch_drug_from_fda lookup_500 str_exn_name "ibuprofen"
    = (EvGet (lookup_url "ibuprofen") [] :: logged, inr None)
    ∧ (logged = []
       ∨ ∃ e, logged = [EvPrint ("FDA API error: " +:+ str_exn_name e)])
    ∧ answer_query lookup_500 chain_echo str_exn_name
        (local_drug_names brands_example) "ibuprofen"
      = (EvGet (lookup_url "ibuprofen") [] :: logged
           ++ [EvPrint "Drug not found in local DB or FDA API."],
         inr tt).
Proof.
  apply (proj2 (remote_failure_not_found lookup_500 chain_echo str_exn_name)).
  - apply lookup_500_fails.
  - exact ibuprofen_not_local.
Defined.

(** The other ways to fail: a request that raises, a result list that is
    empty. *)
Example remote_failure_examples :
  answer_query lookup_down chain_echo str_exn_name
    (local_drug_names brands_example) "ibuprofen"
  = ([EvGet (lookup_url "ibuprofen") [];
      EvPrint "FDA API error: connection refused";
      EvPrint "Drug not found in local DB or FDA API."], inr tt)
  ∧ answer_query lookup_no_results chain_echo str_exn_name
      (local_drug_names brands_example) "ibuprofen"
    = ([EvGet (lookup_url "ibuprofen") [];
        EvPrint "Drug not found in local DB or FDA API."], inr tt).
Proof. split; vm_compute; reflexivity. Qed.



(** * The claims about normalization *)

(** C6.  [normalize_ingredients] replaces the two ingredient fields of
    every record by their normal form.  Normalizing a string that is
    already normalized gives the same string, for one field and for a list
    of records.  The normal form is the chain of steps of the
    specification: split on the comma, trim, drop the empty entries, keep
    of each entry its first occurrence, join with [", "]; so no entry of
    the result occurs twice, the result has the entries of the input and
    no others, and "A, B, A, C" becomes "A, B, C", in a record as in a
    string. *)
Theorem normalize_idempotent_first_occurrence :
  (∀ s, normalize_field (normalize_field s) = normalize_field s)
  ∧ (∀ records,
       normalize_ingredients (normalize_ingredients records)
       = normalize_ingredients records)
  ∧ (∀ s, normalize_field s = normalize_spec s)
  ∧ (∀ s, NoDup (Py.fromkeys (cleaned_list s))
          ∧ ∀ x, x ∈ Py.fromkeys (cleaned_list s) ↔ x ∈ cleaned_list s)
  ∧ (∀ l, Py.fromkeys l = dedup_first l)
  ∧ normalize_field "A, B, A, C" = "A, B, C"
  ∧ (∀ records,
       Active_Ingredients <$> normalize_ingredients records
       = (fun rec => normalize_spec (Active_Ingredients rec)) <$> records
       ∧ Inactive_Ingredients <$> normalize_ingredients records
         = (fun rec => normalize_spec (Inactive_Ingredients rec)) <$> records)
  ∧ (∀ records i rec,
       records !! i = Some rec →
       ∃ rec', normalize_ingredients records !! i = Some rec'
               ∧ Active_Ingredients rec'
                 = normalize_field (Active_Ingredients rec)
               ∧ Inactive_Ingredients rec'
                 = normalize_field (Inactive_Ingredients rec))
  ∧ normalize_ingredients [record_repeats] = [record_repeats_normalized].
Proof.
  split_and!.
  - apply normalize_field_idem.
  - intros records. unfold normalize_ingredients.
    rewrite <- list_fmap_compose. apply list_fmap_ext. intros _ rec _.
    unfold normalize_record, compose. simpl.
    by rewrite !normalize_field_idem.
  - apply normalize_field_spec.
  - intros s. rewrite fromkeys_dedup_first. split.
    + apply NoDup_dedup_first.
    + intros x. apply elem_of_dedup_first.
  - apply fromkeys_dedup_first.
  - reflexivity.
  - intros records. unfold normalize_ingredients.
    rewrite <- !list_fmap_compose.
    split; apply list_fmap_ext; intros _ rec _; unfold compose; simpl;
      apply normalize_field_spec.
  - intros records i rec Hrec. exists (normalize_record rec).
    unfold normalize_ingredients. rewrite list_lookup_fmap, Hrec. done.
  - reflexivity.
Qed.

Lemma normalize_idempotent_first_occurrence_witness :
  ∃ rec', normalize_ingredients [record_repeats] !! 0 = Some rec'
          ∧ Active_Ingredients rec' = "A, B, C"
          ∧ Inactive_Ingredients rec' = "x, y".
Proof.
  destruct normalize_idempotent_first_occurrence
    as (_ & _ & _ & _ & _ & _ & _ & Hat & _).
  destruct (Hat [record_repeats] 0 record_repeats eq_refl)
    as (rec' & Hrec & Hactive & Hinactive).
  exists rec'. split_and!; [done| |].
  - rewrite Hactive. reflexivity.
  - rewrite Hinactive. reflexivity.
Defined.

(** C10.  [normalize_ingredients] gives back as many records as it got, in
    the same order, each with its brand name, generic name, manufacturer,
    application number and dosage form as they were: the record at a
    position is the normalized record of that position. *)
Theorem normalize_ingredients_frame (records : list DrugRecord) :
  length (normalize_ingredients records) = length records
  ∧ Brand_Name <$> normalize_ingredients records = Brand_Name <$> records
  ∧ Generic_Name <$> normalize_ingredients records = Generic_Name <$> records
  ∧ Manufacturer <$> normalize_ingredients records = Manufacturer <$> records
  ∧ Application_Number <$> normalize_ingredients records
    = Application_Number <$> records
  ∧ Dosage_Form <$> normalize_ingredients records = Dosage_Form <$> records
  ∧ (∀ i, normalize_ingredients records !! i
          = normalize_record <$> records !! i).
Proof.
  unfold normalize_ingredients. split_and!.
  - apply length_fmap.
  - by rewrite <- list_fmap_compose.
  - by rewrite <- list_fmap_compose.
  - by rewrite <- list_fmap_compose.
  - by rewrite <- list_fmap_compose.
  - by rewrite <- list_fmap_compose.
  - intros i. apply list_lookup_fmap.
Qed.

(** * More about the Collector *)

Section CollectorExtras.
Variable fda_api : nat → nat → exn + response fda_page.
Variable rx_api : string → exn + response (list rx_json).

Notation for_labels' := (for_labels rx_api).
Notation while_body' := (while_body fda_api rx_api).
Notation while_loop' := (while_loop fda_api rx_api).
Notation apps_of' := (apps_of rx_api).
Notation record_of' := (record_of rx_api).
Notation records_of' := (records_of rx_api).
Notation batch' := (batch fda_api).
Notation batch_ok' := (batch_ok fda_api rx_api).
Notation labels_from' := (labels_from fda_api).

(** The labeling fetch, by what the service answers. *)
Lemma fetch_fda_labels_cases limit skip :
  fetch_fda_labels fda_api limit skip
  = ([EvGet FDA_LABEL_API [("limit", pretty limit); ("skip", pretty skip)]],
     match fda_api limit skip with
     | inl e => inl e
     | inr resp =>
         if ((400 <=? status_code resp) && (status_code resp <? 600))%Z
         then inl (HTTPError (status_code resp))
         else match json resp with
              | inl e => inl e
              | inr page => inr (default [] (results page))
              end
     end).
Proof.
  unfold fetch_fda_labels, requests_get.
  destruct (fda_api limit skip) as [e|[status body]]; simpl; [done|].
  unfold raise_for_status. simpl.
  destruct ((400 <=? status) && (status <? 600))%Z; simpl; [done|].
  unfold resp_json. simpl. by destruct body as [e|page].
Qed.

(** X1.  [fetch_fda_labels] makes one request with the limit and the
    offset, whatever comes of it.  A status from 400 to 599 raises
    [HTTPError] without the body being read; with any other status, an
    exception of the JSON decoding goes on to the caller, and a body that
    is an object without [results] gives the empty list, like a page with
    no labels. *)
Theorem fetch_fda_labels_behaviour limit skip :
  (fetch_fda_labels fda_api limit skip).1
  = [EvGet FDA_LABEL_API [("limit", pretty limit); ("skip", pretty skip)]]
  ∧ (∀ e, fda_api limit skip = inl e →
          (fetch_fda_labels fda_api limit skip).2 = inl e)
  ∧ (∀ resp, fda_api limit skip = inr resp →
             (400 ≤ status_code resp < 600)%Z →
             (fetch_fda_labels fda_api limit skip).2
             = inl (HTTPError (status_code resp)))
  ∧ (∀ resp e, fda_api limit skip = inr resp →
               ¬ (400 ≤ status_code resp < 600)%Z →
               json resp = inl e →
               (fetch_fda_labels fda_api limit skip).2 = inl e)
  ∧ (∀ resp page, fda_api limit skip = inr resp →
                  ¬ (400 ≤ status_code resp < 600)%Z →
                  json resp = inr page →
                  (fetch_fda_labels fda_api limit skip).2
                  = inr (default [] (results page))
                  ∧ (results page = None →
                     (fetch_fda_labels fda_api limit skip).2 = inr [])).
Proof.
  rewrite fetch_fda_labels_cases. split_and!.
  - done.
  - by intros e ->.
  - intros resp -> Hstatus. simpl.
    by rewrite (proj2 (andb_true_iff _ _))
      by (rewrite Z.leb_le, Z.ltb_lt; lia).
  - intros resp e -> Hstatus Hjson. simpl.
    destruct ((400 <=? status_code resp) && (status_code resp <? 600))%Z
      eqn:Hcode.
    { apply andb_true_iff in Hcode as [?%Z.leb_le ?%Z.ltb_lt]. lia. }
    by rewrite Hjson.
  - intros resp page -> Hstatus Hjson. simpl.
    destruct ((400 <=? status_code resp) && (status_code resp <? 600))%Z
      eqn:Hcode.
    { apply andb_true_iff in Hcode as [?%Z.leb_le ?%Z.ltb_lt]. lia. }
    rewrite Hjson. split; [done|]. by intros ->.
Qed.

(** X2.  [fetch_rxterms_ingredients] makes one request for the drug name.
    A status other than 200 gives [None] without the body being read; a
    body with fewer than three elements gives [None]; an object at index 2
    gives its two lists, a missing one as the empty list.  Nothing is
    caught: an exception of the request or of the JSON decoding, and an
    element at index 2 that is no object, raise. *)
Theorem fetch_rxterms_behaviour drug_name :
  let run := fetch_rxterms_ingredients rx_api drug_name in
  run.1 = [EvGet RXTERMS_INGREDIENT_API (rx_params drug_name)]
  ∧ (∀ e, rx_api drug_name = inl e → run.2 = inl e)
  ∧ (∀ resp, rx_api drug_name = inr resp →
             status_code resp ≠ 200%Z → run.2 = inr None)
  ∧ (∀ resp e, rx_api drug_name = inr resp →
               status_code resp = 200%Z → json resp = inl e →
               run.2 = inl e)
  ∧ (∀ resp data, rx_api drug_name = inr resp →
                  status_code resp = 200%Z → json resp = inr data →
                  run.2 = match data !! 2 with
                          | None => inr None
                          | Some RxOther => inl AttributeError
                          | Some (RxObject details) =>
                              inr (Some {| fb_active := default [] (details !! "active_ingredient");
                                           fb_inactive := default [] (details !! "inactive_ingredient") |})
                          end).
Proof.
  intros run. unfold run. rewrite fetch_rxterms_cases. simpl. split_and!.
  - done.
  - by intros e ->.
  - intros resp -> Hstatus. by rewrite decide_False.
  - intros resp e -> Hstatus Hjson. by rewrite decide_True, Hjson.
  - intros resp data -> Hstatus Hjson. rewrite decide_True, Hjson by done.
    by destruct (data !! 2) as [[details|]|].
Qed.

Lemma or_str_not_empty a b : b ≠ EmptyString → Py.or_str a b ≠ EmptyString.
Proof. by destruct a. Qed.

(** X3.  A record of the fallback path has no empty identity field: each
    is the trimmed value of the label or, where that is empty, its
    placeholder. *)
Theorem fallback_record_fields_not_empty lab rec :
  Py.truthy (label_active lab) && Py.truthy (label_inactive lab) = false →
  (extract_complete_record rx_api lab).2 = inr (Some rec) →
  Brand_Name rec ≠ EmptyString ∧ Generic_Name rec ≠ EmptyString
  ∧ Manufacturer rec ≠ EmptyString ∧ Application_Number rec ≠ EmptyString
  ∧ Dosage_Form rec ≠ EmptyString.
Proof.
  intros Hmiss Hrun.
  destruct (identity_fields_cases lab) as [[e He]|[idn Hidn]].
  - by rewrite (extract_raises _ _ _ He) in Hrun.
  - rewrite (extract_fallback _ _ _ Hidn Hmiss) in Hrun. simpl in Hrun.
    destruct (fetch_rxterms_ingredients rx_api (fallback_key idn)).2
      as [e|[fb|]]; [done| |done].
    destruct (Py.truthy (fb_active fb) && Py.truthy (fb_inactive fb));
      [|done].
    injection Hrun as <-. destruct idn as [[[[b g] m] a] d]. simpl.
    split_and!; by apply or_str_not_empty.
Qed.

(** ** The order of the collected records *)

Lemma add_record_prefix recs : ∀ acc,
  ∃ ext, foldl add_record acc recs = acc ++ ext.
Proof.
  induction recs as [|r recs IH]; intros acc; simpl.
  - exists []. by rewrite app_nil_r.
  - unfold add_record at 2. case_decide.
    + apply IH.
    + destruct (IH (acc ++ [r])) as [ext ->]. exists (r :: ext).
      by rewrite <- app_assoc.
Qed.

Lemma take_add_record_full recs acc :
  50 ≤ length acc → take 50 (foldl add_record acc recs) = take 50 acc.
Proof.
  intros Hlen. destruct (add_record_prefix recs acc) as [ext ->].
  by rewrite take_app_le by done.
Qed.

Lemma length_add_record_ge recs acc :
  length acc ≤ length (foldl add_record acc recs).
Proof.
  destruct (add_record_prefix recs acc) as [ext ->]. rewrite length_app. lia.
Qed.

Lemma take_add_record_take recs acc :
  take 50 (foldl add_record (take 50 acc) recs)
  = take 50 (foldl add_record acc recs).
Proof.
  destruct (decide (length acc ≤ 50)) as [Hle|Hgt].
  - by rewrite (take_ge acc) by done.
  - rewrite !take_add_record_full; [by rewrite take_take|lia|].
    rewrite length_take. lia.
Qed.

Lemma records_of_cons lab labels :
  records_of' (lab :: labels)
  = match record_of' lab with
    | Some rec => rec :: records_of' labels
    | None => records_of' labels
    end.
Proof. done. Qed.

Lemma records_of_app l1 l2 :
  records_of' (l1 ++ l2) = records_of' l1 ++ records_of' l2.
Proof. unfold records_of. apply omap_app. Qed.

(** What the [for] loop has collected when it runs through: the first 50
    of the collection of the specification. *)
Lemma for_labels_collected labels : ∀ st log st',
  loop_inv st → length (collected st) < 50 →
  for_labels' labels st = (log, inr st') →
  collected st'
  = take 50 (foldl add_record (collected st) (records_of' labels)).
Proof.
  induction labels as [|lab labels IH]; intros st log st' Hinv Hlt Hrun.
  - injection Hrun as <- <-. simpl. by rewrite take_ge by lia.
  - simpl in Hrun.
    apply bind_inv_inr in Hrun as (l1 & r & l2 & Hex & Hrest & ->).
    rewrite records_of_cons. unfold record_of. rewrite Hex. simpl.
    destruct r as [rec|]; [|by eapply IH].
    destruct Hinv as (Hseen & Hnd & Hlen). cbn [foldl].
    unfold add_record at 2.
    destruct (decide (Application_Number rec ∈ seen_apps st)) as [Hin|Hnew].
    + rewrite decide_True
        by (by rewrite Hseen, elem_of_list_to_set in Hin).
      by eapply IH.
    + rewrite decide_False
        by (by rewrite Hseen, elem_of_list_to_set in Hnew).
      pose proof (loop_inv_appended rx_api st rec (conj Hseen (conj Hnd Hlen)) Hlt Hnew)
        as Hinv'.
      destruct (decide (50 ≤ length (collected st ++ [rec]))) as [Hfull|Hless].
      * injection Hrest as <- <-. simpl.
        rewrite take_add_record_full by done.
        destruct Hinv' as (_ & _ & ?). simpl in *. by rewrite take_ge.
      * fold (appended st rec) in Hrest.
        destruct (for_labels' labels (appended st rec)) as [l4 r4] eqn:Hfl.
        injection Hrest as <- ->.
        by apply (IH _ _ _ Hinv' ltac:(simpl; lia)) in Hfl.
Qed.

(** One turn over a well-behaved batch, with what it has collected. *)
Lemma while_body_batch_collected st k :
  skip st = k * batch_size → loop_inv st → length (collected st) < 50 →
  batch_ok' k →
  ∃ log labels st',
    batch' k = inr labels
    ∧ while_body' st = (log, inr (Some st'))
    ∧ loop_inv st' ∧ skip st' = S k * batch_size
    ∧ collected st'
      = take 50 (foldl add_record (collected st) (records_of' labels)).
Proof.
  intros Hskip Hinv Hlt (lab & labels & Hbatch & Hall).
  unfold batch in Hbatch. rewrite <- Hskip in Hbatch.
  destruct (for_labels_total rx_api (lab :: labels) st Hall)
    as (l2 & st1 & Hfor).
  destruct (while_body_step fda_api rx_api _ _ _ _ _ Hbatch Hfor)
    as [log Hbody].
  destruct (for_labels_inv rx_api _ _ _ _ Hinv Hlt Hfor)
    as (Hinv1 & Hsk & _).
  exists log, (lab :: labels), (advanced st1). split_and!; try done.
  - unfold batch. by rewrite <- Hskip.
  - simpl. rewrite Hsk, Hskip. unfold batch_size. lia.
  - simpl. by apply (for_labels_collected _ _ _ _ Hinv Hlt Hfor).
Qed.

Lemma labels_from_S k n labels :
  batch' k = inr labels →
  records_of' (labels_from' k (S n))
  = records_of' labels ++ records_of' (labels_from' (S k) n).
Proof. intros Hb. simpl. by rewrite Hb, records_of_app. Qed.

(** The run over well-behaved batches returns the first 50 of the
    collection of the specification. *)
Lemma while_loop_collected n : ∀ st k,
  skip st = k * batch_size → loop_inv st →
  (∀ i, i < n → batch_ok' (k + i)) →
  50 ≤ length (foldl add_record (collected st) (records_of' (labels_from' k n)))
  ∨ batch' (k + n) = inr [] →
  ∃ log, while_loop' (S n) st
         = Some (log, inr (take 50 (foldl add_record (collected st)
                                      (records_of' (labels_from' k n))))).
Proof.
  induction n as [|n IH]; intros st k Hskip Hinv Hok Hend.
  - simpl labels_from. simpl foldl in *.
    destruct (decide (length (collected st) < 50)) as [Hlt|Hfull].
    + destruct Hend as [?|Hempty]; [lia|].
      unfold batch in Hempty. rewrite Nat.add_0_r, <- Hskip in Hempty.
      destruct (while_body_empty fda_api rx_api _ Hempty) as [log Hbody].
      exists log. simpl. rewrite decide_True by done. rewrite Hbody.
      by rewrite take_ge by lia.
    + rewrite while_loop_full by done. eexists. do 2 f_equal.
      destruct Hinv as (_ & _ & ?). by rewrite take_ge.
  - destruct (decide (length (collected st) < 50)) as [Hlt|Hfull].
    + destruct (while_body_batch_collected st k Hskip Hinv Hlt)
        as (l1 & labels & st' & Hb & Hbody & Hinv' & Hskip' & Hcol).
      { rewrite <- (Nat.add_0_r k). apply Hok. lia. }
      rewrite (labels_from_S _ _ _ Hb), foldl_app in *.
      destruct (IH st' (S k)) as [l2 Hloop]; [done|done| | |].
      * intros i Hi. replace (S k + i) with (k + S i) by lia. apply Hok. lia.
      * destruct Hend as [Hlen|Hempty].
        -- left. rewrite Hcol.
           set (A := foldl add_record (collected st) (records_of' labels)) in *.
           destruct (decide (length A ≤ 50)).
           ++ by rewrite take_ge.
           ++ etrans; [|apply length_add_record_ge]. rewrite length_take. lia.
        -- right. by replace (S k + n) with (k + S n) by lia.
      * exists (l1 ++ l2).
        rewrite (while_loop_turn _ _ _ _ _ _ _ _ Hlt Hbody Hloop).
        by rewrite Hcol, take_add_record_take.
    + rewrite while_loop_full by done. eexists. do 2 f_equal.
      destruct Hinv as (_ & _ & ?).
      rewrite take_add_record_full by lia. by rewrite take_ge.
Qed.

Lemma while_body_fetch_error st e :
  (fetch_fda_labels fda_api batch_size (skip st)).2 = inl e →
  ∃ log, while_body' st = (log, inl e).
Proof.
  unfold while_body.
  destruct (fetch_fda_labels fda_api batch_size (skip st)) as [lf r].
  simpl. intros ->. by eexists.
Qed.

(** A fetch that raises before 50 records are collected ends the run with
    its exception. *)
Lemma while_loop_fetch_error n : ∀ st k e,
  skip st = k * batch_size → loop_inv st →
  (∀ i, i < n → batch_ok' (k + i)) →
  length (foldl add_record (collected st) (records_of' (labels_from' k n))) < 50 →
  batch' (k + n) = inl e →
  ∃ log, while_loop' (S n) st = Some (log, inl e).
Proof.
  induction n as [|n IH]; intros st k e Hskip Hinv Hok Hlen Herr.
  - simpl in Hlen.
    unfold batch in Herr. rewrite Nat.add_0_r, <- Hskip in Herr.
    destruct (while_body_fetch_error _ _ Herr) as [log Hbody].
    exists log. simpl. rewrite decide_True by done. by rewrite Hbody.
  - pose proof (length_add_record_ge (records_of' (labels_from' k (S n)))
                  (collected st)) as Hge.
    assert (length (collected st) < 50) as Hlt by lia.
    destruct (while_body_batch_collected st k Hskip Hinv Hlt)
      as (l1 & labels & st' & Hb & Hbody & Hinv' & Hskip' & Hcol).
    { rewrite <- (Nat.add_0_r k). apply Hok. lia. }
    rewrite (labels_from_S _ _ _ Hb), foldl_app in Hlen.
    pose proof (length_add_record_ge (records_of' (labels_from' (S k) n))
                  (foldl add_record (collected st) (records_of' labels))).
    rewrite take_ge in Hcol by lia.
    destruct (IH st' (S k) e) as [l2 Hloop]; [done|done| | | |].
    + intros i Hi. replace (S k + i) with (k + S i) by lia. apply Hok. lia.
    + by rewrite Hcol.
    + by replace (S k + n) with (k + S n) by lia.
    + exists (l1 ++ l2).
      exact (while_loop_turn _ _ _ _ _ _ _ _ Hlt Hbody Hloop).
Qed.

(** X4.  Over batches that are non-empty and whose labels complete
    without an exception, up to the page that is empty or to the 50th
    record, the list returned is the specification's collection cut at 50:
    the completed records in the order of the source, each application
    number at its first occurrence only. *)
Theorem collected_in_source_order n :
  (∀ i, i < n → batch_ok' i) →
  50 ≤ length (dedup_by_app (records_of' (labels_from' 0 n)))
  ∨ batch' n = inr [] →
  outcome (collect_50_complete_drugs fda_api rx_api (S n))
  = Some (inr (take 50 (dedup_by_app (records_of' (labels_from' 0 n))))).
Proof.
  intros Hok Hend. apply outcome_returned.
  apply (while_loop_collected n
           {| collected := []; seen_apps := ∅; skip := 0 |} 0);
    [done|apply loop_inv_initial|done|done].
Qed.

(** X5.  A request to the labeling API that raises, or is answered with an
    error status, before 50 records are collected ends the collection with
    that exception: the records collected so far are not returned. *)
Theorem collection_aborts_on_fetch_error n e :
  (∀ i, i < n → batch_ok' i) →
  length (dedup_by_app (records_of' (labels_from' 0 n))) < 50 →
  batch' n = inl e →
  outcome (collect_50_complete_drugs fda_api rx_api (S n)) = Some (inl e).
Proof.
  intros Hok Hlen Herr. apply outcome_returned.
  apply (while_loop_fetch_error n
           {| collected := []; seen_apps := ∅; skip := 0 |} 0);
    [done|apply loop_inv_initial|done|done|done].
Qed.
End CollectorExtras.

Lemma fetch_fda_labels_behaviour_witness :
  (fetch_fda_labels fda_breaks 10 10).2 = inl (HTTPError 500).
Proof.
  destruct (fetch_fda_labels_behaviour fda_breaks 10 10) as (_ & _ & Herr & _).
  apply (Herr (Response 500 (inl JSONDecodeError))); [reflexivity|simpl; lia].
Defined.

Lemma fetch_rxterms_behaviour_witness :
  (fetch_rxterms_ingredients rx_unknown "Advil").2 = inr None.
Proof.
  destruct (fetch_rxterms_behaviour rx_unknown "Advil") as (_ & _ & Hstatus & _).
  apply (Hstatus (Response 404 (inl JSONDecodeError))); [reflexivity|].
  simpl. lia.
Defined.

Lemma fallback_record_fields_not_empty_witness :
  Brand_Name (fallback_record (identity_of label_blank_brand)
                {| fb_active := ["X"; "Y"]; fb_inactive := ["Z"] |})
  ≠ EmptyString.
Proof.
  apply (fallback_record_fields_not_empty rx_complete label_blank_brand);
    reflexivity.
Defined.

Lemma fda_twins_batch_ok rx_api : batch_ok fda_twins rx_api 0.
Proof.
  eexists _, _. split; [reflexivity|].
  repeat constructor; apply label_of_completes.
Qed.

Lemma collected_in_source_order_witness :
  outcome (collect_50_complete_drugs fda_twins rx_unknown 2)
  = Some (inr (take 50 (dedup_by_app
                          (records_of rx_unknown (labels_from fda_twins 0 1))))).
Proof.
  apply (collected_in_source_order fda_twins rx_unknown 1).
  - intros i Hi. replace i with 0 by lia. apply fda_twins_batch_ok.
  - right. reflexivity.
Defined.

Lemma fda_breaks_batch_ok rx_api : batch_ok fda_breaks rx_api 0.
Proof.
  eexists _, _. split; [reflexivity|].
  repeat constructor; apply label_of_completes.
Qed.

Lemma collection_aborts_on_fetch_error_witness :
  outcome (collect_50_complete_drugs fda_breaks rx_unknown 2)
  = Some (inl (HTTPError 500)).
Proof.
  apply (collection_aborts_on_fetch_error fda_breaks rx_unknown 1).
  - intros i Hi. replace i with 0 by lia. apply fda_breaks_batch_ok.
  - vm_compute. lia.
  - reflexivity.
Defined.

(** * The requests of a run *)

Section Requests.
Variable fda_api : nat → nat → exn + response fda_page.
Variable rx_api : string → exn + response (list rx_json).

Lemma label_requests_app l1 l2 :
  label_requests (l1 ++ l2) = label_requests l1 ++ label_requests l2.
Proof. apply List.filter_app. Qed.

Lemma bind_log {A B} (m : M A) (f : A → M B) :
  (bind m f).1
  = m.1 ++ match m.2 with inl _ => [] | inr a => (f a).1 end.
Proof.
  destruct m as [l [e|a]]; simpl; [by rewrite app_nil_r|].
  by destruct (f a).
Qed.

Lemma extract_no_label_request lab :
  label_requests (extract_complete_record rx_api lab).1 = [].
Proof.
  destruct (identity_fields_cases lab) as [[e He]|[idn Hidn]].
  - by rewrite (extract_raises _ _ _ He).
  - destruct (Py.truthy (label_active lab) && Py.truthy (label_inactive lab))
      eqn:Hlists.
    + apply andb_true_iff in Hlists as [Ha Hi].
      by rewrite (extract_primary _ _ _ Hidn Ha Hi).
    + by rewrite (extract_fallback _ _ _ Hidn Hlists).
Qed.

Lemma for_labels_no_label_request labels : ∀ st,
  label_requests (for_labels rx_api labels st).1 = [].
Proof.
  induction labels as [|lab labels IH]; intros st; [done|].
  simpl. rewrite bind_log, label_requests_app, extract_no_label_request.
  simpl. destruct (extract_complete_record rx_api lab).2 as [e|[rec|]];
    [done| |apply IH].
  case_decide; [apply IH|].
  case_decide; [done|].
  match goal with |- context [for_labels rx_api labels ?s] =>
    pose proof (IH s) as Hrest;
    destruct (for_labels rx_api labels s) as [l4 r4] end.
  done.
Qed.

Lemma while_body_label_request st :
  label_requests (while_body fda_api rx_api st).1 = [page_request (skip st)].
Proof.
  unfold while_body. rewrite bind_log, label_requests_app.
  rewrite fetch_fda_labels_cases. cbn [fst snd].
  change (label_requests [EvGet FDA_LABEL_API
            [("limit", pretty batch_size); ("skip", pretty (skip st))]])
    with [page_request (skip st)].
  match goal with
  | |- context [match ?r with inl _ => [] | inr _ => _ end] =>
      destruct r as [e|labels]
  end; [done|].
  destruct labels as [|lab labels]; [done|]. cbn [Py.truthy negb].
  rewrite bind_log, label_requests_app, for_labels_no_label_request.
  by destruct (for_labels rx_api (lab :: labels) st).2.
Qed.

(** The pages a run asks for, from the offset it starts at. *)
Lemma while_loop_label_requests fuel : ∀ st log r,
  while_loop fda_api rx_api fuel st = Some (log, r) →
  ∃ m, m ≤ fuel
       ∧ label_requests log
         = (fun i => page_request (skip st + i * batch_size)) <$> seq 0 m.
Proof.
  induction fuel as [|fuel IH]; intros st log r Hrun; [done|].
  simpl in Hrun. destruct (decide (length (collected st) < 50)).
  - pose proof (while_body_label_request st) as Hreq.
    destruct (while_body fda_api rx_api st) as [l1 [e|[st'|]]] eqn:Hbody.
    + injection Hrun as <- <-. exists 1. split; [lia|].
      simpl in *. by rewrite Hreq, Nat.add_0_r.
    + destruct (while_loop fda_api rx_api fuel st') as [[l2 r2]|] eqn:Hloop;
        [|done].
      injection Hrun as <- <-.
      destruct (IH _ _ _ Hloop) as (m & Hm & Hreq').
      pose proof Hbody
        as (lf & labels & l3 & st1 & _ & _ & Hfor & ->)%while_body_inv.
      apply for_labels_skip in Hfor.
      exists (S m). split; [lia|].
      rewrite label_requests_app, Hreq' . simpl in Hreq. rewrite Hreq.
      cbn [seq fmap list_fmap app]. rewrite Nat.add_0_r. f_equal.
      rewrite <- seq_shift, <- list_fmap_compose.
      apply list_fmap_ext. intros _ i _. unfold compose. simpl. f_equal.
      rewrite Hfor. unfold batch_size. lia.
    + injection Hrun as <- <-. exists 1. split; [lia|].
      simpl in *. by rewrite Hreq, Nat.add_0_r.
  - injection Hrun as <- <-. exists 0. split; [lia|done].
Qed.

(** X6.  A finished run asks the labeling API for the pages at the
    offsets 0, 10, 20, ... in this order, each once and with the limit 10,
    for at least one page and for no more pages than it made turns. *)
Theorem pages_requested_in_order fuel log r :
  collect_50_complete_drugs fda_api rx_api fuel = Some (log, r) →
  ∃ m, 1 ≤ m ≤ fuel
       ∧ label_requests log
         = (fun i => page_request (i * batch_size)) <$> seq 0 m.
Proof.
  intros Hrun. unfold collect_50_complete_drugs in Hrun.
  destruct (while_loop_label_requests _ _ _ _ Hrun) as (m & Hm & Hreq).
  exists m. split; [|done]. split; [|done].
  destruct m as [|m]; [|lia]. exfalso.
  destruct fuel as [|fuel]; [done|]. simpl in Hrun.
  pose proof (while_body_label_request
                {| collected := []; seen_apps := ∅; skip := 0 |}) as Hbody.
  destruct (while_body fda_api rx_api _) as [l1 [e|[st'|]]].
  - injection Hrun as <- <-. simpl in *. by rewrite Hbody in Hreq.
  - destruct (while_loop fda_api rx_api fuel st') as [[l2 r2]|]; [|done].
    injection Hrun as <- <-. rewrite label_requests_app in Hreq.
    simpl in Hbody. by rewrite Hbody in Hreq.
  - injection Hrun as <- <-. simpl in *. by rewrite Hbody in Hreq.
Qed.
End Requests.

(** * The collected list has each application number once *)

Section Dedup.
Variable fda_api : nat → nat → exn + response fda_page.
Variable rx_api : string → exn + response (list rx_json).

Lemma count_app_absent a (records : list DrugRecord) :
  a ∉ apps records → count_app a records = 0.
Proof.
  unfold count_app, apps. induction records as [|rec records IH]; [done|].
  rewrite fmap_cons, not_elem_of_cons. intros [Hne Hrest].
  rewrite filter_cons_False by congruence. by apply IH.
Qed.

Lemma count_app_once a (records : list DrugRecord) :
  NoDup (apps records) → a ∈ apps records → count_app a records = 1.
Proof.
  unfold apps. induction records as [|rec records IH]; intros Hnd Hin.
  - by apply elem_of_nil in Hin.
  - rewrite fmap_cons in Hnd, Hin. apply NoDup_cons in Hnd as [Hnew Hnd].
    unfold count_app. destruct (decide (Application_Number rec = a)) as [<-|Hne].
    + rewrite filter_cons_True by done. simpl. f_equal.
      by apply count_app_absent.
    + rewrite filter_cons_False by done. apply IH; [done|].
      apply elem_of_cons in Hin as [->|Hin]; done.
Qed.

Lemma elem_of_apps_of labels lab rec :
  lab ∈ labels → record_of rx_api lab = Some rec →
  Application_Number rec ∈ apps_of rx_api labels.
Proof.
  intros Hlab Hrec. unfold apps_of. apply elem_of_list_to_set.
  apply list_elem_of_omap. exists lab. split; [done|]. by rewrite Hrec.
Qed.

(** C4.  Whatever the two services answer, the list that the collection
    loop returns holds no application number twice.  A label whose record
    has an application number that was seen before changes nothing: the
    loop goes on with the state it had and prints nothing for it.  A label
    whose record has a new application number is kept: its record is
    appended, its number is marked as seen and the line for it is printed.
    So when the source runs dry before 50 records are collected, the list
    returned has exactly one record for each application number that the
    labels processed gave; and, also when the run stops at 50, it is the
    list of the completed records in which every application number stays
    at its first occurrence only. *)
Theorem collected_application_numbers_distinct :
  (∀ fuel l,
     outcome (collect_50_complete_drugs fda_api rx_api fuel) = Some (inr l) →
     NoDup (apps l))
  ∧ (∀ st lab rec labels,
       (extract_complete_record rx_api lab).2 = inr (Some rec) →
       Application_Number rec ∈ seen_apps st →
       for_labels rx_api (lab :: labels) st
       = ((extract_complete_record rx_api lab).1
            ++ (for_labels rx_api labels st).1,
          (for_labels rx_api labels st).2))
  ∧ (∀ st lab rec labels,
       (extract_complete_record rx_api lab).2 = inr (Some rec) →
       Application_Number rec ∉ seen_apps st →
       let st' := appended st rec in
       let line := collected_line (length (collected st')) rec in
       for_labels rx_api (lab :: labels) st
       = if decide (50 ≤ length (collected st'))
         then ((extract_complete_record rx_api lab).1 ++ [line], inr st')
         else ((extract_complete_record rx_api lab).1
                 ++ line :: (for_labels rx_api labels st').1,
               (for_labels rx_api labels st').2))
  ∧ (∀ n,
       (∀ i, i < n → batch_ok fda_api rx_api i) →
       batch fda_api n = inr [] →
       size (apps_of rx_api (labels_from fda_api 0 n)) < 50 →
       ∃ l,
         outcome (collect_50_complete_drugs fda_api rx_api (S n))
         = Some (inr l)
         ∧ ∀ lab rec,
             lab ∈ labels_from fda_api 0 n →
             record_of rx_api lab = Some rec →
             count_app (Application_Number rec) l = 1)
  ∧ (∀ n,
       (∀ i, i < n → batch_ok fda_api rx_api i) →
       50 ≤ length (dedup_by_app
                      (records_of rx_api (labels_from fda_api 0 n)))
       ∨ batch fda_api n = inr [] →
       outcome (collect_50_complete_drugs fda_api rx_api (S n))
       = Some (inr (take 50 (dedup_by_app
                               (records_of rx_api
                                  (labels_from fda_api 0 n)))))).
Proof.
  split_and!.
  - intros fuel l [log Hrun]%outcome_returned.
    by destruct (while_loop_inv fda_api rx_api fuel _ _ _ loop_inv_initial Hrun).
  - intros st lab rec labels Hrec Hseen. simpl.
    destruct (extract_complete_record rx_api lab) as [l1 r]. simpl in Hrec.
    subst r. simpl. rewrite decide_True by done.
    by destruct (for_labels rx_api labels st).
  - intros st lab rec labels Hrec Hnew st' line. simpl.
    destruct (extract_complete_record rx_api lab) as [l1 r]. simpl in Hrec.
    subst r. simpl. rewrite decide_False by done.
    unfold line, st', appended, collected_line. simpl.
    destruct (decide (50 ≤ length (collected st ++ [rec]))) as [Hfull|Hless].
    + done.
    + match goal with |- context [for_labels rx_api labels ?s] =>
        destruct (for_labels rx_api labels s) as [l2 r2] end.
      done.
  - intros n Hok Hempty Hsize.
    destruct (while_loop_exhausted fda_api rx_api n
                {| collected := []; seen_apps := ∅; skip := 0 |} 0)
      as (log & l & Hrun & _ & Hset);
      [done|apply loop_inv_initial|done|done|simpl; by rewrite union_empty_l_L|].
    simpl in Hset. rewrite union_empty_l_L in Hset.
    exists l. split; [apply outcome_returned; by exists log|].
    intros lab rec Hlab Hrec.
    destruct (while_loop_inv fda_api rx_api _ _ _ _ loop_inv_initial Hrun)
      as [Hnd _].
    apply count_app_once; [done|].
    apply (elem_of_list_to_set (C:=gset string)). rewrite Hset.
    by eapply elem_of_apps_of.
  - intros n Hok Hend. apply outcome_returned.
    apply (while_loop_collected fda_api rx_api n
             {| collected := []; seen_apps := ∅; skip := 0 |} 0);
      [done|apply loop_inv_initial|done|done].
Qed.
End Dedup.

Lemma collected_application_numbers_distinct_witness :
  outcome (collect_50_complete_drugs fda_twins rx_unknown 2)
  = Some (inr [primary_record ("First", "", "", "NDA7", "") ["A"] ["B"]])
  ∧ NoDup (apps [primary_record ("First", "", "", "NDA7", "") ["A"] ["B"]])
  ∧ ∃ l, outcome (collect_50_complete_drugs fda_twins rx_unknown 2)
         = Some (inr l)
         ∧ count_app "NDA7" l = 1.
Proof.
  destruct (collected_application_numbers_distinct fda_twins rx_unknown)
    as (Hnodup & _ & _ & Honce & _).
  split_and!.
  - vm_compute. reflexivity.
  - apply (Hnodup 2). vm_compute. reflexivity.
  - destruct (Honce 1) as (l & Hrun & Hcount).
    + intros i Hi. replace i with 0 by lia. apply fda_twins_batch_ok.
    + reflexivity.
    + vm_compute. lia.
    + exists l. split; [done|].
      apply (Hcount (label_of "Second" "NDA7")
               (primary_record ("Second", "", "", "NDA7", "") ["A"] ["B"])).
      * assert (labels_from fda_twins 0 1
                = [label_of "First" "NDA7"; label_of "Second" "NDA7"]) as ->
          by reflexivity.
        apply list_elem_of_further, list_elem_of_here.
      * reflexivity.
Defined.

Lemma pages_requested_in_order_witness :
  ∃ m, 1 ≤ m ≤ 2
       ∧ label_requests
           (match collect_50_complete_drugs fda_twins rx_unknown 2 with
            | Some run => run.1
            | None => []
            end)
         = (fun i => page_request (i * batch_size)) <$> seq 0 m.
Proof.
  apply (pages_requested_in_order fda_twins rx_unknown 2 _
           (inr [primary_record ("First", "", "", "NDA7", "") ["A"] ["B"]])).
  vm_compute. reflexivity.
Defined.

(** * The Collector script *)

Section CollectorScript.
Variable fda_api : nat → nat → exn + response fda_page.
Variable rx_api : string → exn + response (list rx_json).

Lemma apps_normalize records :
  apps (normalize_ingredients records) = apps records.
Proof.
  unfold apps, normalize_ingredients. by rewrite <- list_fmap_compose.
Qed.

Lemma normalize_record_idem rec :
  normalize_record (normalize_record rec) = normalize_record rec.
Proof.
  unfold normalize_record. simpl. by rewrite !normalize_field_idem.
Qed.

(** What the script writes, from what the collection returned. *)
Lemma collector_main_written fuel log table :
  collector_main fda_api rx_api fuel = Some (log, inr (Some table)) →
  ∃ records,
    outcome (collect_50_complete_drugs fda_api rx_api fuel)
    = Some (inr records)
    ∧ records ≠ []
    ∧ table = {| csv_file := "drug_ingredient.csv";
                 fieldnames := record_keys;
                 rows := normalize_ingredients records |}.
Proof.
  unfold collector_main, outcome.
  destruct (collect_50_complete_drugs fda_api rx_api fuel)
    as [[l [e|records]]|]; simpl; [done| |done].
  destruct records as [|rec records]; simpl; [done|].
  intros [= <- <-]. by exists (rec :: records).
Qed.

(** X7.  When the script writes the CSV file, it is [drug_ingredient.csv]
    with the seven columns of a record as its header and between 1 and 50
    rows; no application number occurs in two rows, and every row is in
    normal form: normalizing it again changes nothing. *)
Theorem csv_rows_distinct_and_normalized fuel log table :
  collector_main fda_api rx_api fuel = Some (log, inr (Some table)) →
  csv_file table = "drug_ingredient.csv"
  ∧ fieldnames table
    = ["Brand Name"; "Generic Name"; "Manufacturer"; "Application Number";
       "Dosage Form"; "Active Ingredients"; "Inactive Ingredients"]
  ∧ 1 ≤ length (rows table) ≤ 50
  ∧ NoDup (apps (rows table))
  ∧ Forall (fun row => normalize_record row = row) (rows table).
Proof.
  intros (records & Hrun & Hne & ->)%collector_main_written.
  apply outcome_returned in Hrun as [l Hrun].
  destruct (while_loop_inv fda_api rx_api fuel _ _ _ loop_inv_initial Hrun)
    as [Hnd Hlen].
  simpl. split_and!; try done.
  - unfold normalize_ingredients. rewrite length_fmap.
    destruct records; [done|simpl; lia].
  - unfold normalize_ingredients. by rewrite length_fmap.
  - by rewrite apps_normalize.
  - unfold normalize_ingredients. apply Forall_fmap, Forall_forall.
    intros rec _. apply normalize_record_idem.
Qed.

(** X8.  The script writes no file when the collection returned no
    record, and none when the collection raised: the exception ends the
    script after the first message. *)
Theorem no_csv_without_records fuel :
  (outcome (collect_50_complete_drugs fda_api rx_api fuel) = Some (inr []) →
   ∃ log, collector_main fda_api rx_api fuel = Some (log, inr None)
          ∧ last log = Some (EvPrint msg_no_records))
  ∧ (∀ e, outcome (collect_50_complete_drugs fda_api rx_api fuel)
          = Some (inl e) →
          ∃ log, collector_main fda_api rx_api fuel = Some (log, inl e)
                 ∧ head log = Some (EvPrint msg_collecting)).
Proof.
  unfold collector_main, outcome. split.
  - destruct (collect_50_complete_drugs fda_api rx_api fuel)
      as [[l [e|records]]|]; simpl; [done| |done].
    intros [= ->]. simpl. eexists. split; [done|].
    by rewrite last_cons, last_snoc.
  - intros e.
    destruct (collect_50_complete_drugs fda_api rx_api fuel)
      as [[l [e'|records]]|]; simpl; [|done|done].
    intros [= ->]. by eexists.
Qed.
End CollectorScript.

Lemma csv_rows_distinct_and_normalized_witness :
  ∃ log table,
    collector_main fda_twins rx_unknown 2 = Some (log, inr (Some table))
    ∧ 1 ≤ length (rows table) ≤ 50
    ∧ NoDup (apps (rows table)).
Proof.
  destruct (collector_main fda_twins rx_unknown 2) as [[log [e|[table|]]]|]
    eqn:Hmain; try (vm_compute in Hmain; discriminate Hmain).
  exists log, table. split; [done|].
  destruct (csv_rows_distinct_and_normalized fda_twins rx_unknown 2 log table
              Hmain) as (_ & _ & Hlen & Hnd & _).
  by split.
Defined.

Lemma no_csv_without_records_witness :
  ∃ log, collector_main fda_breaks rx_unknown 2
         = Some (log, inl (HTTPError 500))
         ∧ head log = Some (EvPrint msg_collecting).
Proof.
  apply (proj2 (no_csv_without_records fda_breaks rx_unknown 2)).
  vm_compute. reflexivity.
Defined.

(** * More about normalization *)

Section NormalizeExtras.
Import Py PyFacts.

Lemma split_app_any sep a b :
  split sep (a +:+ String sep b) = split sep a ++ split sep b.
Proof.
  induction a as [|c a IH]; simpl.
  - by rewrite decide_True.
  - case_decide; [by rewrite IH|].
    rewrite IH. pose proof (split_not_nil sep a).
    by destruct (split sep a).
Qed.

Lemma cleaned_list_app a b :
  cleaned_list (a +:+ String "," b) = cleaned_list a ++ cleaned_list b.
Proof. unfold cleaned_list. by rewrite split_app_any, flat_map_app. Qed.

Lemma cleaned_list_blank s : cleaned_list (String " " s) = cleaned_list s.
Proof.
  unfold cleaned_list. simpl. pose proof (split_not_nil "," s).
  destruct (split "," s) as [|piece pieces]; [done|]. simpl.
  by rewrite (strip_space_cons " " piece).
Qed.

Lemma cleaned_list_join_any l :
  cleaned_list (join ", " l) = flat_map cleaned_list l.
Proof.
  induction l as [|x l IH]; [done|].
  destruct l as [|y l]; [simpl; by rewrite app_nil_r|].
  change (join ", " (x :: y :: l))
    with (x +:+ String "," (String " " (join ", " (y :: l)))).
  by rewrite cleaned_list_app, cleaned_list_blank, IH.
Qed.

(** X9.  The entries can be read back from a normalized string: cleaning
    it gives the entries that were joined, which are the cleaned entries of
    the input with each kept at its first occurrence. *)
Theorem normalized_entries_read_back s :
  cleaned_list (normalize_field s) = fromkeys (cleaned_list s)
  ∧ fromkeys (cleaned_list s) = dedup_first (cleaned_list s).
Proof.
  split; [|apply fromkeys_dedup_first].
  unfold normalize_field. apply cleaned_list_join.
  rewrite fromkeys_dedup_first. apply Forall_forall. intros x Hx.
  rewrite elem_of_dedup_first in Hx.
  by eapply Forall_forall in Hx; [|apply cleaned_list_clean].
Qed.

(** X10.  Normalization cannot tell a comma inside an ingredient from the
    separator: the ingredient field of a record, which is the label's list
    joined with [", "], normalizes to the pieces of all the entries, split
    at every comma, trimmed, without the empty ones and without
    repetitions. *)
Theorem normalize_joined_list l :
  cleaned_list (join ", " l) = flat_map cleaned_list l
  ∧ normalize_field (join ", " l)
    = join ", " (dedup_first (flat_map cleaned_list l)).
Proof.
  split; [apply cleaned_list_join_any|].
  unfold normalize_field.
  by rewrite cleaned_list_join_any, fromkeys_dedup_first.
Qed.

Example normalize_joined_list_example :
  normalize_field (join ", " ["Corn starch, Talc"; " talc "; "Talc"])
  = "Corn starch, Talc, talc".
Proof. reflexivity. Qed.
End NormalizeExtras.

(** * More about the Resolver *)

Section ResolverExtras.
Variable fda_lookup : string → exn + response fda_page.
Variable chain : string → exn + list string.
Variable str_exn : exn → string.

Notation answer_query' := (answer_query fda_lookup chain str_exn).
Notation main_loop' := (main_loop fda_lookup chain str_exn).

Lemma count_events_app p l1 l2 :
  count_events p (l1 ++ l2) = count_events p l1 + count_events p l2.
Proof. unfold count_events. by rewrite List.filter_app, length_app. Qed.

Lemma count_events_prints p (lines : list string) :
  p = is_input ∨ p = is_lookup →
  count_events p (EvPrint <$> lines) = 0.
Proof. intros [-> | ->]; by induction lines. Qed.

(** One answer is one lookup, and reads nothing. *)
Lemma answer_query_counts names query :
  count_events is_input (answer_query' names query).1 = 0
  ∧ count_events is_lookup (answer_query' names query).1 = 1.
Proof.
  destruct (decide (Py.strip (Py.lower query) ∈ names)) as [Hin|Hout].
  - rewrite answer_query_local by done.
    destruct (chain query) as [e|docs]; [done|]. simpl.
    change (EvChain query :: (EvPrint <$> docs))
      with ([EvChain query] ++ (EvPrint <$> docs)).
    rewrite !count_events_app, !count_events_prints by auto. done.
  - rewrite answer_query_remote by done.
    destruct (fetch_drug_total fda_lookup str_exn query) as (logged & r & ->).
    cbn [fst snd].
    change (EvGet (lookup_url query) [] :: (EvPrint <$> logged))
      with ([EvGet (lookup_url query) []] ++ (EvPrint <$> logged)).
    rewrite !count_events_app, !count_events_prints by auto. done.
Qed.

(** An answerable line is answered without an exception. *)
Lemma answer_query_answerable names line :
  answerable chain names line →
  (answer_query' names (Py.strip line)).2 = inr tt.
Proof.
  intros [_ Hchain].
  destruct (decide (Py.strip (Py.lower line) ∈ names)) as [Hin|Hout].
  - rewrite answer_query_local by (by rewrite PyFacts.strip_lower_strip).
    by destruct (Hchain Hin) as [docs ->].
  - by rewrite answer_query_remote by (by rewrite PyFacts.strip_lower_strip).
Qed.

Lemma main_loop_step names line rest :
  Py.lower (Py.strip line) ≠ "exit" →
  main_loop' names (line :: rest)
  = bind (emit (EvInput prompt))
      (fun _ => bind (answer_query' names (Py.strip line))
                  (fun _ => main_loop' names rest)).
Proof. intros Hexit. simpl. by rewrite decide_False. Qed.

(** Answerable lines in front change neither how the loop ends nor what
    it does with the lines behind them. *)
Lemma main_loop_prefix names before : ∀ rest,
  Forall (answerable chain names) before →
  (main_loop' names (before ++ rest)).2 = (main_loop' names rest).2
  ∧ count_events is_input (main_loop' names (before ++ rest)).1
    = length before + count_events is_input (main_loop' names rest).1
  ∧ count_events is_lookup (main_loop' names (before ++ rest)).1
    = length before + count_events is_lookup (main_loop' names rest).1.
Proof.
  induction before as [|line before IH]; intros rest Hall; [done|].
  inversion Hall as [|? ? Hline Hall']; subst.
  destruct (IH rest Hall') as (Hres & Hin & Hlook).
  change ((line :: before) ++ rest) with (line :: (before ++ rest)).
  rewrite main_loop_step by apply Hline.
  pose proof (answer_query_answerable names line Hline) as Hok.
  destruct (answer_query_counts names (Py.strip line)) as [Hc1 Hc2].
  destruct (answer_query' names (Py.strip line)) as [la ra].
  simpl in Hok. subst ra. cbn [fst] in *.
  destruct (main_loop' names (before ++ rest)) as [l1 r1].
  unfold bind, emit. cbn [fst snd] in *.
  change (EvInput prompt :: la ++ l1) with ([EvInput prompt] ++ la ++ l1).
  rewrite !count_events_app, Hc1, Hc2, Hin, Hlook. simpl. split_and!; [done|lia|lia].
Qed.

(** X11.  The loop ends without an exception at the first line that is the
    exit word, in any case and with any white space around it: every line
    before it is answered with one lookup, and no line after it is read. *)
Theorem loop_ends_at_exit names before exit_line after :
  Forall (answerable chain names) before →
  Py.lower (Py.strip exit_line) = "exit" →
  let run := main_loop' names (before ++ exit_line :: after) in
  run.2 = inr tt
  ∧ count_events is_input run.1 = S (length before)
  ∧ count_events is_lookup run.1 = length before.
Proof.
  intros Hall Hexit run. unfold run.
  destruct (main_loop_prefix names before (exit_line :: after) Hall)
    as (-> & -> & ->).
  simpl. rewrite decide_True by done. unfold count_events. simpl.
  split_and!; [done|lia|lia].
Qed.

(** X12.  When the input is used up without the exit word, the loop ends
    with [EOFError], after it has answered every line. *)
Theorem loop_ends_with_eof names lines :
  Forall (answerable chain names) lines →
  let run := main_loop' names lines in
  run.2 = inl EOFError
  ∧ count_events is_input run.1 = S (length lines)
  ∧ count_events is_lookup run.1 = length lines.
Proof.
  intros Hall run. unfold run.
  destruct (main_loop_prefix names lines [] Hall) as (Hres & Hin & Hlook).
  rewrite app_nil_r in *. rewrite Hres, Hin, Hlook. unfold count_events.
  simpl. split_and!; [done|lia|lia].
Qed.

(** X13.  An exception of the retrieval chain is not caught: it ends the
    loop, and the lines behind the query are not read. *)
Theorem chain_error_ends_loop names before line after e :
  Forall (answerable chain names) before →
  Py.lower (Py.strip line) ≠ "exit" →
  Py.strip (Py.lower line) ∈ names →
  chain (Py.strip line) = inl e →
  let run := main_loop' names (before ++ line :: after) in
  run.2 = inl e
  ∧ count_events is_input run.1 = S (length before)
  ∧ count_events is_lookup run.1 = S (length before).
Proof.
  intros Hall Hexit Hin Hchain run. unfold run.
  destruct (main_loop_prefix names before (line :: after) Hall)
    as (-> & -> & ->).
  rewrite main_loop_step by done.
  rewrite answer_query_local by (by rewrite PyFacts.strip_lower_strip).
  rewrite Hchain. unfold count_events. simpl. split_and!; [done|lia|lia].
Qed.

(** X14.  Whatever the labeling API does, a query that is not a local name
    never ends the loop: the loop goes on to the next line and ends as it
    would have ended without that query. *)
Theorem remote_query_never_ends_loop names line rest :
  Py.lower (Py.strip line) ≠ "exit" →
  Py.strip (Py.lower line) ∉ names →
  (main_loop' names (line :: rest)).2 = (main_loop' names rest).2.
Proof.
  intros Hexit Hout.
  assert (answerable chain names line) as Hline by (by split).
  by destruct (main_loop_prefix names [line] rest
                 (Forall_cons_2 _ _ _ Hline (Forall_nil_2 _)))
    as (Hres & _).
Qed.

Lemma lowered_names_strings brands :
  lowered_names (CellStr <$> brands)
  = ret ((fun name => Py.strip (Py.lower name)) <$> brands).
Proof.
  induction brands as [|brand brands IH]; [done|].
  rewrite !fmap_cons. cbn [lowered_names]. by rewrite IH.
Qed.

Lemma lowered_names_other column :
  (∃ text, CellOther text ∈ column) →
  lowered_names column = raise AttributeError.
Proof.
  intros [text Hin]. induction column as [|c column IH].
  - by apply elem_of_nil in Hin.
  - destruct c as [name|text']; [|done].
    apply elem_of_cons in Hin as [Heq|Hin]; [done|].
    simpl. by rewrite (IH Hin).
Qed.

(** X15.  The name set is built only when every cell of the Brand Name
    column is a string: a cell that is no string, as an empty cell of the
    CSV is after [pd.read_csv], makes the assignment raise
    [AttributeError].  When all cells are strings, every brand of the
    column can be asked for by typing it in any case and with any white
    space around it: the query goes to the retrieval chain, with the text
    as typed but trimmed; unless the brand reads "exit", for then typing it
    ends the loop. *)
Theorem every_brand_reachable column :
  ((∃ text, CellOther text ∈ column) →
   frame_drug_names column = raise AttributeError)
  ∧ (∀ brands,
       column = CellStr <$> brands →
       frame_drug_names column = ret (local_drug_names brands)
       ∧ ∀ brand line rest,
           brand ∈ brands →
           Py.strip (Py.lower line) = Py.strip (Py.lower brand) →
           let names := local_drug_names brands in
           (Py.strip (Py.lower brand) ≠ "exit" →
            answer_query' names (Py.strip line)
            = match chain (Py.strip line) with
              | inl e => ([EvChain (Py.strip line)], inl e)
              | inr docs =>
                  (EvChain (Py.strip line) :: (EvPrint <$> docs), inr tt)
              end
            ∧ main_loop' names (line :: rest)
              = bind (emit (EvInput prompt))
                  (fun _ => bind (answer_query' names (Py.strip line))
                              (fun _ => main_loop' names rest)))
           ∧ (Py.strip (Py.lower brand) = "exit" →
              main_loop' names (line :: rest) = ([EvInput prompt], inr tt))).
Proof.
  split.
  - intros Hother. unfold frame_drug_names.
    by rewrite lowered_names_other.
  - intros brands ->. split.
    { unfold frame_drug_names. by rewrite lowered_names_strings. }
    intros brand line rest Hbrand Hsame names.
    rewrite <- Hsame, <- PyFacts.lower_strip. split.
    + intros Hexit. split; [|by apply main_loop_step].
      apply answer_query_local. rewrite PyFacts.strip_lower_strip, Hsame.
      apply elem_of_local_drug_names. by exists brand.
    + intros Hexit. simpl. by rewrite decide_True.
Qed.
End ResolverExtras.

Lemma ibuprofen_answerable chain :
  answerable chain (local_drug_names brands_example) "ibuprofen".
Proof.
  split; [exact ibuprofen_line_not_exit|].
  intros Hin. by destruct (ibuprofen_not_local Hin).
Qed.

Lemma aspirin_answerable :
  answerable chain_echo (local_drug_names brands_example) "  ASPirin ".
Proof. split; [exact aspirin_line_not_exit|]. intros _. by eexists. Qed.

Lemma loop_ends_at_exit_witness :
  let run := main_loop lookup_500 chain_echo str_exn_name
               (local_drug_names brands_example)
               (["  ASPirin "; "ibuprofen"] ++ " Exit " :: ["tylenol"]) in
  run.2 = inr tt
  ∧ count_events is_input run.1 = 3
  ∧ count_events is_lookup run.1 = 2.
Proof.
  apply (loop_ends_at_exit lookup_500 chain_echo str_exn_name).
  - apply Forall_cons_2; [apply aspirin_answerable|].
    apply Forall_cons_2; [apply ibuprofen_answerable|apply Forall_nil_2].
  - reflexivity.
Defined.

Lemma loop_ends_with_eof_witness :
  let run := main_loop lookup_500 chain_echo str_exn_name
               (local_drug_names brands_example) ["  ASPirin "; "ibuprofen"] in
  run.2 = inl EOFError
  ∧ count_events is_input run.1 = 3
  ∧ count_events is_lookup run.1 = 2.
Proof.
  apply (loop_ends_with_eof lookup_500 chain_echo str_exn_name).
  apply Forall_cons_2; [apply aspirin_answerable|].
  apply Forall_cons_2; [apply ibuprofen_answerable|apply Forall_nil_2].
Defined.

Lemma chain_error_ends_loop_witness :
  let run := main_loop lookup_500 chain_broken str_exn_name
               (local_drug_names brands_example)
               (["ibuprofen"] ++ "  ASPirin " :: ["tylenol"]) in
  run.2 = inl (ChainError "embedding service unavailable")
  ∧ count_events is_input run.1 = 2
  ∧ count_events is_lookup run.1 = 2.
Proof.
  apply (chain_error_ends_loop lookup_500 chain_broken str_exn_name).
  - apply Forall_cons_2; [apply ibuprofen_answerable|apply Forall_nil_2].
  - exact aspirin_line_not_exit.
  - exact aspirin_local.
  - reflexivity.
Defined.

Lemma remote_query_never_ends_loop_witness :
  (main_loop lookup_down chain_echo str_exn_name
     (local_drug_names brands_example) ("ibuprofen" :: ["exit"])).2
  = (main_loop lookup_down chain_echo str_exn_name
       (local_drug_names brands_example) ["exit"]).2.
Proof.
  apply (remote_query_never_ends_loop lookup_down chain_echo str_exn_name).
  - exact ibuprofen_line_not_exit.
  - exact ibuprofen_not_local.
Defined.

Lemma every_brand_reachable_witness :
  frame_drug_names (CellStr <$> brands_example)
  = ret (local_drug_names brands_example)
  ∧ answer_query lookup_500 chain_echo str_exn_name
      (local_drug_names brands_example) (Py.strip "  tyLENol")
    = ([EvChain "tyLENol"; EvPrint "Active Ingredients: tyLENol"], inr tt)
  ∧ frame_drug_names [CellStr "Aspirin"; CellOther "nan"]
    = raise AttributeError.
Proof.
  assert (" Tylenol " ∈ brands_example) as Hbrand
    by (apply list_elem_of_further, list_elem_of_here).
  split_and!.
  - apply (proj2 (every_brand_reachable lookup_500 chain_echo str_exn_name
                    (CellStr <$> brands_example)) brands_example eq_refl).
  - destruct (proj2 (every_brand_reachable lookup_500 chain_echo
                       str_exn_name (CellStr <$> brands_example))
                brands_example eq_refl) as [_ Hreach].
    destruct (Hreach " Tylenol " "  tyLENol" [] Hbrand eq_refl)
      as [Hlocal _].
    apply Hlocal. vm_compute. intros H; discriminate H.
  - apply (proj1 (every_brand_reachable lookup_500 chain_echo str_exn_name
                    [CellStr "Aspirin"; CellOther "nan"])).
    exists "nan". apply list_elem_of_further, list_elem_of_here.
Defined.
